(** * Dependency scanner of the dev server (packages/vite/src/node/optimizer/scan.ts)

    A shallow embedding of [scanImports], of the esbuild plugin built by
    [esbuildScanPlugin] and of the helpers of scan.ts, followed by the
    properties of the scanner that the specification states.

    Conventions.
    - A JavaScript string is a [string]: a sequence of code units, here the
      code units 0..255.
    - A value of type [string | undefined] is an [option string].
    - A plain object whose key order can be observed ([deps], [missing]) is a
      [JsObject]: the list of its own properties in the order in which
      [Object.keys] / [Object.entries] enumerate them.
    - A [Map] or object that is only looked up ([seen], [scripts]) is a
      [gmap].
    - Everything declared outside scan.ts (the resolver of the plugin
      container, node's [fs] and [path], fast-glob, the constants of
      ../constants and ../utils, the collation of the host) is a field of the
      record [Host].
    - The variables that the hooks share are the fields of [State], which
      every hook takes and gives back. The body of a hook runs to its end
      before another hook starts; the one exception is the cached resolver
      [resolve], whose part before the [await] and part after it are two
      definitions, so that calls that overlap can be written down.
    - What the caller can observe besides the returned value (warnings,
      crawls launched, calls of the container, files read) is logged in the
      field [events]. *)

From Stdlib Require Import String Ascii List ZArith NArith Bool Lia.
From Stdlib Require Import Permutation Sorted.
From stdpp Require Import gmap strings.
Import ListNotations.

Local Open Scope list_scope.
Local Open Scope string_scope.

(* ================================================================== *)
(** ** JavaScript strings *)
(* ================================================================== *)

Module Js.

(** The character [U+0022], kept out of string literals. *)
Definition dquote : ascii := ascii_of_nat 34.
Definition backslash : ascii := ascii_of_nat 92.
Definition DQ : string := String dquote EmptyString.
(** The line feed, [\n]. *)
Definition NL : string := String (ascii_of_nat 10) EmptyString.

(** [s.startsWith(p)] *)
Fixpoint startsWith (s p : string) : bool :=
  match p with
  | EmptyString => true
  | String c p' =>
      match s with
      | EmptyString => false
      | String d s' => Ascii.eqb c d && startsWith s' p'
      end
  end.

(** [s.includes(p)] *)
Fixpoint includes (s p : string) : bool :=
  startsWith s p ||
  match s with
  | EmptyString => false
  | String _ s' => includes s' p
  end.

Fixpoint revString (s acc : string) : string :=
  match s with
  | EmptyString => acc
  | String c s' => revString s' (String c acc)
  end.

(** [s.endsWith(p)] *)
Definition endsWith (s p : string) : bool :=
  startsWith (revString s EmptyString) (revString p EmptyString).

(** [s.replace(p, r)] with a string pattern: the first occurrence only. *)
Fixpoint dropString (n : nat) (s : string) : string :=
  match n, s with
  | O, _ => s
  | S n', String _ s' => dropString n' s'
  | S _, EmptyString => EmptyString
  end.

Fixpoint replaceFirst (s p r : string) : string :=
  if startsWith s p then r ++ dropString (String.length p) s
  else match s with
       | EmptyString => EmptyString
       | String c s' => String c (replaceFirst s' p r)
       end.

(** White space and line terminators, as [\s] and [trim] see them
    (code units below 256). *)
Definition isSpace (c : ascii) : bool :=
  let n := nat_of_ascii c in
  (((9 <=? n) && (n <=? 13)) || (n =? 32) || (n =? 160))%nat.

(** [\w] *)
Definition isWord (c : ascii) : bool :=
  let n := nat_of_ascii c in
  (((48 <=? n) && (n <=? 57)) || ((65 <=? n) && (n <=? 90))
   || ((97 <=? n) && (n <=? 122)) || (n =? 95))%nat.

Definition isDigit (c : ascii) : bool :=
  let n := nat_of_ascii c in ((48 <=? n) && (n <=? 57))%nat.

Fixpoint trimStart (s : string) : string :=
  match s with
  | EmptyString => EmptyString
  | String c s' => if isSpace c then trimStart s' else s
  end.

(** [s.trim()] *)
Definition trim (s : string) : string :=
  revString (trimStart (revString (trimStart s) EmptyString)) EmptyString.

(** Truthiness of a string and of a [string | undefined]. *)
Definition truthy (s : string) : bool :=
  match s with EmptyString => false | _ => true end.

Definition truthyOpt (o : option string) : bool :=
  match o with Some s => truthy s | None => false end.

(** [a || b] on values that are a string or undefined. *)
Definition orElse (a b : option string) : option string :=
  if truthyOpt a then a else b.

(** ASCII lower case, the only case folding that the [i] flag performs on
    the letters that occur in the patterns of scan.ts. *)
Definition lower (c : ascii) : ascii :=
  let n := nat_of_ascii c in
  if ((65 <=? n) && (n <=? 90))%nat then ascii_of_nat (n + 32) else c.

Definition hexDigit (n : nat) : ascii :=
  if (n <? 10)%nat then ascii_of_nat (48 + n) else ascii_of_nat (87 + n).

(** The escape of one code unit inside [JSON.stringify] of a string. *)
Definition jsonEscape (c : ascii) : string :=
  let n := nat_of_ascii c in
  if (n =? 34)%nat then String backslash DQ
  else if (n =? 92)%nat then String backslash (String backslash EmptyString)
  else if (n =? 8)%nat then String backslash "b"
  else if (n =? 9)%nat then String backslash "t"
  else if (n =? 10)%nat then String backslash "n"
  else if (n =? 12)%nat then String backslash "f"
  else if (n =? 13)%nat then String backslash "r"
  else if (n <? 32)%nat then
    String backslash ("u00" ++ String (hexDigit (n / 16))
                                  (String (hexDigit (n mod 16)) EmptyString))
  else String c EmptyString.

Fixpoint jsonBody (s : string) : string :=
  match s with
  | EmptyString => EmptyString
  | String c s' => jsonEscape c ++ jsonBody s'
  end.

(** [JSON.stringify(s)] for a string [s]. *)
Definition JSON_stringify (s : string) : string := DQ ++ jsonBody s ++ DQ.

(** Decimal rendering of a counter, as a template literal does it. *)
Fixpoint natDigits (fuel n : nat) (acc : string) : string :=
  match fuel with
  | O => acc
  | S fuel' =>
      let acc' := String (ascii_of_nat (48 + n mod 10)) acc in
      if (n <? 10)%nat then acc' else natDigits fuel' (n / 10) acc'
  end.

Definition numberToString (n : nat) : string := natDigits (S n) n EmptyString.

(* ---------------------------------------------------------------- *)
(** *** Plain objects with observable key order *)

(** The own properties of an object, in enumeration order: the keys that are
    array indices first, in ascending numeric order, then the other keys in
    the order in which they were created. *)
Definition JsObject (V : Type) : Type := list (string * V).

Fixpoint decimal (s : string) (acc : N) : option N :=
  match s with
  | EmptyString => Some acc
  | String c s' =>
      if isDigit c then decimal s' (acc * 10 + N.of_nat (nat_of_ascii c - 48))%N
      else None
  end.

(** The array index that a property key denotes, if it is the canonical
    decimal form of an integer below 2^32 - 1. *)
Definition arrayIndex (k : string) : option N :=
  match k with
  | EmptyString => None
  | String c rest =>
      if Ascii.eqb c "0"%char then
        match rest with EmptyString => Some 0%N | _ => None end
      else
        match decimal k 0 with
        | Some n => if (n <? 4294967295)%N then Some n else None
        | None => None
        end
  end.

Definition isArrayIndex (k : string) : bool :=
  match arrayIndex k with Some _ => true | None => false end.

Section Obj.
Context {V : Type}.

Definition keys (o : JsObject V) : list string := map fst o.

(** [Object.entries(o)] *)
Definition entries (o : JsObject V) : list (string * V) := o.

(** The own property [k], if any. *)
Fixpoint getOwn (o : JsObject V) (k : string) : option V :=
  match o with
  | [] => None
  | (k', v) :: o' => if String.eqb k k' then Some v else getOwn o' k
  end.

Fixpoint update (k : string) (v : V) (o : JsObject V) : JsObject V :=
  match o with
  | [] => []
  | (k', v') :: o' =>
      if String.eqb k k' then (k', v) :: o' else (k', v') :: update k v o'
  end.

(** Where a new array-index key goes: before the first key that is not a
    smaller array index. *)
Fixpoint insertIndex (n : N) (k : string) (v : V) (o : JsObject V)
  : JsObject V :=
  match o with
  | [] => [(k, v)]
  | (k', v') :: o' =>
      match arrayIndex k' with
      | Some n' =>
          if (n' <? n)%N then (k', v') :: insertIndex n k v o'
          else (k, v) :: o
      | None => (k, v) :: o
      end
  end.

(** [o[k] = v] on an object without setters. *)
Definition set (k : string) (v : V) (o : JsObject V) : JsObject V :=
  match getOwn o k with
  | Some _ => update k v o
  | None =>
      match arrayIndex k with
      | Some n => insertIndex n k v o
      | None => (o ++ [(k, v)])%list
      end
  end.

(** [Object.fromEntries(l)] *)
Definition fromEntries (l : list (string * V)) : JsObject V :=
  fold_left (fun o kv => set (fst kv) (snd kv) o) l [].

(** [a.sort(cmp)]: the stable sort of a consistent comparator. An element
    goes before the first element of the sorted rest that it does not
    come after. *)
Fixpoint sortInsert (cmp : V -> V -> Z) (x : V) (l : list V) : list V :=
  match l with
  | [] => [x]
  | y :: l' =>
      if (cmp x y <=? 0)%Z then x :: l else y :: sortInsert cmp x l'
  end.

Fixpoint sort (cmp : V -> V -> Z) (l : list V) : list V :=
  match l with
  | [] => []
  | x :: l' => sortInsert cmp x (sort cmp l')
  end.
End Obj.

(** The names that every plain object inherits from [Object.prototype]; a
    property read finds a (truthy) function or object under each of them. *)
Definition objectPrototypeKeys : list string :=
  [ "constructor"; "__proto__"; "hasOwnProperty"; "isPrototypeOf";
    "propertyIsEnumerable"; "toLocaleString"; "toString"; "valueOf";
    "__defineGetter__"; "__defineSetter__"; "__lookupGetter__";
    "__lookupSetter__" ].

Definition inherited (k : string) : bool :=
  existsb (String.eqb k) objectPrototypeKeys.

(** Truthiness of the property read [o[k]] on a [Record<string, string>]
    created by an object literal. *)
Definition truthyGet (o : JsObject string) (k : string) : bool :=
  match getOwn o k with
  | Some v => truthy v
  | None => inherited k
  end.

End Js.

(* ================================================================== *)
(** ** Regular expressions *)
(* ================================================================== *)

(** The patterns of scan.ts are written in a small abstract syntax and run
    by a backtracking matcher that follows the order in which a JavaScript
    [RegExp] explores its alternatives: left alternative first, greedy
    quantifiers longest first, lazy quantifiers shortest first. Every
    quantifier of scan.ts applies to a single character class. *)
Module Regex.

Inductive atom : Type :=
| Any                       (* [.] under the [s] flag *)
| Chr (c : ascii)           (* a literal character *)
| Space                     (* [\s] *)
| Word.                     (* [\w] *)

Inductive cls : Type :=
| OneOf (l : list atom)     (* [[...]] *)
| NoneOf (l : list atom).   (* [[^...]] *)

Inductive re : Type :=
| Eps
| Lit (c : cls)
| Seq (r1 r2 : re)
| Alt (r1 r2 : re)
| Star (c : cls)            (* [c*] *)
| LazyStar (c : cls)        (* [c*?] *)
| Group (i : nat) (r : re)  (* the [i]-th capturing group *)
| WordBoundary              (* [\b] *)
| Bol                       (* [^] without the [m] flag *)
| Eol.                      (* [$] without the [m] flag *)

(** Concatenation and alternation of several patterns. *)
Fixpoint cat (l : list re) : re :=
  match l with
  | [] => Eps
  | [r] => r
  | r :: l' => Seq r (cat l')
  end.

Fixpoint alt (r : re) (l : list re) : re :=
  match l with
  | [] => r
  | r' :: l' => Alt r (alt r' l')
  end.

Definition chr (c : ascii) : re := Lit (OneOf [Chr c]).
Definition plus (c : cls) : re := Seq (Lit c) (Star c).

(** A literal run of characters. *)
Fixpoint str (s : string) : re :=
  match s with
  | EmptyString => Eps
  | String c EmptyString => chr c
  | String c s' => Seq (chr c) (str s')
  end.

Definition atomMatch (icase : bool) (a : atom) (x : ascii) : bool :=
  match a with
  | Any => true
  | Chr c => if icase then Ascii.eqb (Js.lower c) (Js.lower x) else Ascii.eqb c x
  | Space => Js.isSpace x
  | Word => Js.isWord x
  end.

Definition clsMatch (icase : bool) (c : cls) (x : ascii) : bool :=
  match c with
  | OneOf l => existsb (fun a => atomMatch icase a x) l
  | NoneOf l => negb (existsb (fun a => atomMatch icase a x) l)
  end.

(** Captures: the most recent binding of a group number wins. *)
Definition Caps : Type := list (nat * string).

Fixpoint group (cs : Caps) (i : nat) : option string :=
  match cs with
  | [] => None
  | (j, s) :: cs' => if Nat.eqb i j then Some s else group cs' i
  end.

Fixpoint takeString (n : nat) (s : string) : string :=
  match n, s with
  | S n', String c s' => String c (takeString n' s')
  | _, _ => EmptyString
  end.

(** The text between a position [s] and a later position [s'] of the same
    input, both given as the remaining suffix. *)
Definition consumed (s s' : string) : string :=
  takeString (String.length s - String.length s') s.

Definition isWordOpt (c : option ascii) : bool :=
  match c with Some x => Js.isWord x | None => false end.

Definition headOf (s : string) : option ascii :=
  match s with String c _ => Some c | EmptyString => None end.

Section Matcher.
Context {R : Type}.
Variable icase : bool.

(** A continuation receives the character before the current position, the
    remaining input and the captures. *)
Definition Cont : Type := option ascii -> string -> Caps -> option R.

Fixpoint starGreedy (c : cls) (prev : option ascii) (s : string)
    (k : option ascii -> string -> option R) : option R :=
  match s with
  | String a s' =>
      if clsMatch icase c a then
        match starGreedy c (Some a) s' k with
        | Some x => Some x
        | None => k prev s
        end
      else k prev s
  | EmptyString => k prev s
  end.

Fixpoint starLazy (c : cls) (prev : option ascii) (s : string)
    (k : option ascii -> string -> option R) : option R :=
  match k prev s with
  | Some x => Some x
  | None =>
      match s with
      | String a s' =>
          if clsMatch icase c a then starLazy c (Some a) s' k else None
      | EmptyString => None
      end
  end.

Fixpoint run (r : re) (prev : option ascii) (s : string) (cs : Caps)
    (k : Cont) : option R :=
  match r with
  | Eps => k prev s cs
  | Lit c =>
      match s with
      | String a s' => if clsMatch icase c a then k (Some a) s' cs else None
      | EmptyString => None
      end
  | Seq r1 r2 =>
      run r1 prev s cs (fun p' s' cs' => run r2 p' s' cs' k)
  | Alt r1 r2 =>
      match run r1 prev s cs k with
      | Some x => Some x
      | None => run r2 prev s cs k
      end
  | Star c => starGreedy c prev s (fun p' s' => k p' s' cs)
  | LazyStar c => starLazy c prev s (fun p' s' => k p' s' cs)
  | Group i r1 =>
      run r1 prev s cs (fun p' s' cs' => k p' s' ((i, consumed s s') :: cs'))
  | WordBoundary =>
      if xorb (isWordOpt prev) (isWordOpt (headOf s)) then k prev s cs
      else None
  | Bol => match prev with None => k prev s cs | Some _ => None end
  | Eol => match s with EmptyString => k prev s cs | String _ _ => None end
  end.
End Matcher.

(** One match: the text skipped before it, the captures, the input that
    follows it and the character before that input. *)
Record Match : Type := {
  skipped : string;
  whole : string;
  groups : Caps;
  rest : string;
  last : option ascii
}.

(** The leftmost match at or after the current position. [skip] is the
    text passed over so far, in reverse. *)
Fixpoint search (icase : bool) (r : re) (prev : option ascii) (s : string)
    (skip : string) : option Match :=
  match run icase r prev s [] (fun p s' cs => Some (p, s', cs)) with
  | Some (p, s', cs) =>
      Some {| skipped := Js.revString skip EmptyString;
              whole := consumed s s'; groups := cs; rest := s'; last := p |}
  | None =>
      match s with
      | String a s' => search icase r (Some a) s' (String a skip)
      | EmptyString => None
      end
  end.

(** [r.test(s)] and [s.match(r)] for a pattern without the [g] flag. *)
Definition test (icase : bool) (r : re) (s : string) : bool :=
  match search icase r None s EmptyString with Some _ => true | None => false end.

Definition matchOnce (icase : bool) (r : re) (s : string) : option Caps :=
  option_map groups (search icase r None s EmptyString).

(** The matches that [while ((m = r.exec(s)))] visits for a pattern with
    the [g] flag, [lastIndex] starting at 0. An empty match leaves
    [lastIndex] where it is and the loop never ends: [None]. *)
Fixpoint execLoop (fuel : nat) (icase : bool) (r : re) (prev : option ascii)
    (s : string) : option (list Match) :=
  match fuel with
  | O => None
  | S fuel' =>
      match search icase r prev s EmptyString with
      | None => Some []
      | Some m =>
          match whole m with
          | EmptyString => None
          | String _ _ =>
              option_map (cons m) (execLoop fuel' icase r (last m) (rest m))
          end
      end
  end.

Definition execAll (icase : bool) (r : re) (s : string) : option (list Match) :=
  execLoop (S (String.length s)) icase r None s.

(** [s.replace(r, repl)] for a pattern with the [g] flag and a replacement
    without [$]. After an empty match the scan moves on by one code unit. *)
Fixpoint replaceLoop (fuel : nat) (icase : bool) (r : re) (repl : string)
    (prev : option ascii) (s : string) : string :=
  match fuel with
  | O => s
  | S fuel' =>
      match search icase r prev s EmptyString with
      | None => s
      | Some m =>
          skipped m ++ repl ++
          match whole m, rest m with
          | EmptyString, EmptyString => EmptyString
          | EmptyString, String a s' =>
              String a (replaceLoop fuel' icase r repl (Some a) s')
          | String _ _, _ => replaceLoop fuel' icase r repl (last m) (rest m)
          end
      end
  end.

Definition replaceAll (icase : bool) (r : re) (repl s : string) : string :=
  replaceLoop (S (String.length s)) icase r repl None s.

End Regex.

(* ================================================================== *)
(** ** Configuration, host and plugin state *)
(* ================================================================== *)

Import Js Regex.

(** [optimizeDeps.entries : string | string[]] *)
Inductive EntryPatterns : Type :=
| PatternString (s : string)
| PatternList (l : list string).

(** [build.rollupOptions.input] as it is found at run time: one of the three
    declared shapes, or any other value, of which only the truthiness is
    looked at. *)
Inductive BuildInput : Type :=
| InputString (s : string)
| InputArray (l : list string)
| InputObject (o : JsObject string)
| InputOther (truthyValue : bool).

Record ESBuildOptions : Type := {
  jsxInject : option string
}.

Record OptimizeDeps : Type := {
  entries : option EntryPatterns;
  include : option (list string);
  exclude : option (list string);
  (** [esbuildOptions.loader], keyed by extension *)
  esbuildLoader : gmap string string
}.

Record ResolvedConfig : Type := {
  root : string;
  optimizeDeps : OptimizeDeps;
  (** [build.rollupOptions?.input] *)
  rollupInput : option BuildInput;
  outDir : string;
  (** [config.esbuild], [None] when it is [false] *)
  esbuild : option ESBuildOptions
}.

(** The options that the hooks pass to [resolve]: the loader of the html-type
    importer under [custom.depScan.loader]. *)
Record ResolveIdOptions : Type := {
  depScanLoader : option string
}.

(** What scan.ts imports or calls without defining it. *)
Record Host : Type := {
  (** [container.resolveId(id, importer, {...options, scan: true})?.id] *)
  resolveId : string -> option string -> option ResolveIdOptions -> option string;
  (** [fs.existsSync], and [fs.readFileSync(_, 'utf-8')], [None] when it throws *)
  existsSync : string -> bool;
  readFileSync : string -> option string;
  (** fast-glob with [absolute: true]: patterns, [cwd], [ignore] *)
  glob : EntryPatterns -> string -> list string -> list string;
  (** node's [path] *)
  path_resolve : list string -> string;
  path_dirname : string -> string;
  path_isAbsolute : string -> bool;
  path_extname : string -> string;
  (** ../utils and ../constants *)
  normalizePath : string -> string;
  cleanUrl : string -> string;
  isOptimizable : string -> OptimizeDeps -> bool;
  moduleListContains : list string -> string -> bool;
  dataUrlRE : string -> bool;
  JS_TYPES_RE : string -> bool;
  (** [new RegExp(`\\.(${KNOWN_ASSET_TYPES.join('|')})$`)] *)
  knownAssetTypesRE : string -> bool;
  SPECIAL_QUERY_RE : string -> bool;
  (** esbuild's [transform(contents, {loader}).code], [None] when it throws *)
  transform : string -> string -> option string;
  (** ../plugins/importMetaGlob: [transformGlobImport(code, id, root, resolve)]
      gives [result?.s.toString()]; its calls of [resolve] can fill the cache
      [seen], which it receives and gives back. *)
  transformGlobImport :
    gmap string (option string) -> string -> string -> string ->
    option string * gmap string (option string);
  (** [extractImportPaths] of scan.ts: two of its three patterns are declared
      in ../utils; its result is text appended to a stored script. *)
  extractImportPaths : string -> string;
  (** [String.prototype.localeCompare] in the locale of the host *)
  localeCompare : string -> string -> Z
}.

(** What the caller can observe besides the returned value. *)
Inductive Event : Type :=
| Warn (msg : string)                            (* config.logger.warn *)
| Build (entry : string)                         (* one esbuild crawl launched *)
| ResolveId (id : string) (importer : option string)  (* container.resolveId *)
| ReadFile (path : string).                      (* a file read from disk *)

Record OnLoadResult : Type := {
  loader : string;
  contents : string;
  (** [pluginData.htmlType.loader] *)
  htmlTypeLoader : option string
}.

Record OnResolveArgs : Type := {
  path : string;
  importer : string;
  (** [pluginData?.htmlType?.loader] *)
  pluginData : option string
}.

Record OnResolveResult : Type := {
  resolvedPath : string;
  external : bool;
  namespace : option string
}.

(** The variables that the hooks of one scan share: [seen], [depImports] and
    [missing] belong to the plugin, [scripts] to each [setup] call, that is
    to each crawl, numbered by its entry. *)
Record State : Type := {
  seen : gmap string (option string);
  depImports : JsObject string;
  missing : JsObject string;
  scripts : gmap (nat * string) OnLoadResult;
  events : list Event
}.

Definition initialState : State :=
  {| seen := ∅; depImports := []; missing := []; scripts := ∅; events := [] |}.

Definition withSeen (st : State) (m : gmap string (option string)) : State :=
  {| seen := m; depImports := depImports st; missing := missing st;
     scripts := scripts st; events := events st |}.

Definition withDep (st : State) (id resolved : string) : State :=
  {| seen := seen st; depImports := Js.set id resolved (depImports st);
     missing := missing st; scripts := scripts st; events := events st |}.

Definition withMissing (st : State) (id importer : string) : State :=
  {| seen := seen st; depImports := depImports st;
     missing := Js.set id importer (missing st);
     scripts := scripts st; events := events st |}.

Definition withScript (st : State) (build : nat) (key : string)
    (r : OnLoadResult) : State :=
  {| seen := seen st; depImports := depImports st; missing := missing st;
     scripts := <[(build, key) := r]> (scripts st); events := events st |}.

Definition emit (st : State) (e : Event) : State :=
  {| seen := seen st; depImports := depImports st; missing := missing st;
     scripts := scripts st; events := (events st ++ [e])%list |}.

(* ================================================================== *)
(** ** The patterns of scan.ts *)
(* ================================================================== *)

(** [/\.(html|vue|svelte|astro|imba)$/] *)
Definition htmlTypesRE : re :=
  cat [ chr "."; Group 1 (alt (str "html") [str "vue"; str "svelte"; str "astro"; str "imba"]);
        Eol ].

Definition quoted (q : ascii) (r : re) : re := cat [chr q; r; chr q].

(** [/(<script\b[^>]+type\s*=\s*(?:"module"|'module')[^>]*>)(.*?)<\/script>/gis] *)
Definition scriptModuleRE : re :=
  cat [ Group 1 (cat [ str "<script"; WordBoundary; plus (NoneOf [Chr ">"]);
                       str "type"; Star (OneOf [Space]); chr "=";
                       Star (OneOf [Space]);
                       Alt (quoted dquote (str "module")) (quoted "'" (str "module"));
                       Star (NoneOf [Chr ">"]); chr ">" ]);
        Group 2 (LazyStar (OneOf [Any]));
        str "</script>" ].

(** [/(<script(?:\s[^>]*>|>))(.*?)<\/script>/gis] *)
Definition scriptRE : re :=
  cat [ Group 1 (cat [ str "<script";
                       Alt (cat [Lit (OneOf [Space]); Star (NoneOf [Chr ">"]); chr ">"])
                           (chr ">") ]);
        Group 2 (LazyStar (OneOf [Any]));
        str "</script>" ].

(** [/<!--.*?-->/gs] *)
Definition commentRE : re :=
  cat [ str "<!--"; LazyStar (OneOf [Any]); str "-->" ].

(** [/\bNAME\s*=\s*(?:"([^"]+)"|'([^']+)'|([^\s'">]+))/i] *)
Definition attributeRE (name : string) : re :=
  cat [ WordBoundary; str name; Star (OneOf [Space]); chr "=";
        Star (OneOf [Space]);
        alt (quoted dquote (Group 1 (plus (NoneOf [Chr dquote]))))
            [ quoted "'" (Group 2 (plus (NoneOf [Chr "'"])));
              Group 3 (plus (NoneOf [Space; Chr "'"; Chr dquote; Chr ">"])) ] ].

Definition srcRE : re := attributeRE "src".
Definition typeRE : re := attributeRE "type".
Definition langRE : re := attributeRE "lang".
Definition contextRE : re := attributeRE "context".

(** The filter of the bare-import hook, [/^[\w@][^:]/]. *)
Definition bareImportRE : re :=
  cat [ Bol; Lit (OneOf [Word; Chr "@"]); Lit (NoneOf [Chr ":"]) ].

(** The filter of the hook for styles, JSON and WebAssembly,
    [/\.(css|less|sass|scss|styl|stylus|pcss|postcss|sss|json|wasm)$/]. *)
Definition cssJsonWasmRE : re :=
  cat [ chr ".";
        Group 1 (alt (str "css")
                   [ str "less"; str "sass"; str "scss"; str "styl"; str "stylus";
                     str "pcss"; str "postcss"; str "sss"; str "json"; str "wasm" ]);
        Eol ].

(** Modelled from the spec: [externalRE] of ../utils, the remote URL forms
    [http://], [https://] and protocol-relative [//], that is
    [/^(https?:)?\/\//]. *)
Definition externalRE : re :=
  cat [ Bol;
        Alt (Group 1 (cat [str "http"; Alt (chr "s") Eps; chr ":"])) Eps;
        str "//" ].

(** Modelled from the spec: [virtualModulePrefix] and [virtualModuleRE] of
    ../utils, the reserved prefix that marks a virtual script reference and
    the pattern [/^virtual-module:.*/] that recognises it. *)
Definition virtualModulePrefix : string := "virtual-module:".

Definition virtualModuleRE : re :=
  cat [ Bol; str virtualModulePrefix;
        Star (NoneOf [Chr (ascii_of_nat 10); Chr (ascii_of_nat 13)]) ].

(* ================================================================== *)
(** ** The plugin: [esbuildScanPlugin] *)
(* ================================================================== *)

Section Plugin.
Context (H : Host) (config : ResolvedConfig).
(** The [entries] argument of [esbuildScanPlugin]. *)
Context (pluginEntries : list string).

(** [shouldExternalizeDep(resolvedId, rawId)] *)
Definition shouldExternalizeDep (resolvedId rawId : string) : bool :=
  if negb (path_isAbsolute H resolvedId) then true
  else if String.eqb resolvedId rawId
          || includes resolvedId (String (ascii_of_nat 0) EmptyString)
  then true
  else false.

(** [isScannable(id)] *)
Definition isScannable (id : string) : bool :=
  JS_TYPES_RE H id || test false htmlTypesRE id.

(** *** The cached resolver [resolve]

    [resolve] is an [async] function with one [await], on the call of the
    container. [resolve_begin] is its body up to that point, [resolve_end]
    what runs when the container has answered. *)

(** [id + (importer && path.dirname(importer))] *)
Definition resolveKey (id : string) (importer : option string) : string :=
  id ++ match importer with
        | None => "undefined"
        | Some i => if truthy i then path_dirname H i else i
        end.

(** [importer && normalizePath(importer)] *)
Definition importerArg (importer : option string) : option string :=
  match importer with
  | None => None
  | Some i => if truthy i then Some (normalizePath H i) else Some i
  end.

Inductive Resolving : Type :=
| Cached (res : option string)
| Awaiting (key : string) (res : option string).

Definition resolve_begin (st : State) (id : string) (importer : option string)
    (options : option ResolveIdOptions) : Resolving * State :=
  let key := resolveKey id importer in
  match seen st !! key with
  | Some res => (Cached res, st)
  | None =>
      (Awaiting key (resolveId H id (importerArg importer) options),
       emit st (ResolveId id (importerArg importer)))
  end.

Definition resolve_end (st : State) (key : string) (res : option string)
    : option string * State :=
  (res, withSeen st (<[key := res]> (seen st))).

(** A call of [resolve] that runs to its end without another task in
    between. *)
Definition resolve (st : State) (id : string) (importer : option string)
    (options : option ResolveIdOptions) : option string * State :=
  match resolve_begin st id importer options with
  | (Cached res, st') => (res, st')
  | (Awaiting key res, st') => resolve_end st' key res
  end.

(** [include] and [exclude] of the plugin. *)
Definition pluginInclude : option (list string) := include (optimizeDeps config).

Definition pluginExclude : list string :=
  (match exclude (optimizeDeps config) with Some l => l | None => [] end
   ++ ["@vite/client"; "@vite/env"])%list.

Definition externalResult (p : string) : OnResolveResult :=
  {| resolvedPath := p; external := true; namespace := None |}.

(** [externalUnlessEntry({ path })] *)
Definition externalUnlessEntry (p : string) : OnResolveResult :=
  {| resolvedPath := p;
     external := negb (existsb (String.eqb p) pluginEntries);
     namespace := None |}.

(** [doTransformGlobImport(contents, id, loader)]; [None] when esbuild's
    [transform] throws. *)
Definition doTransformGlobImport (st : State) (contents id loader : string)
    : option (string * State) :=
  transpiledContents ←
    (if negb (String.eqb loader "js") then transform H contents loader
     else Some contents);
  let '(result, seen') :=
    transformGlobImport H (seen st) transpiledContents id (root config) in
  Some (match result with
        | Some s => if truthy s then s else transpiledContents
        | None => transpiledContents
        end, withSeen st seen').

(** *** The [onResolve] hooks, in the order of their registration *)

Definition ResolveHook : Type :=
  State -> OnResolveArgs -> option OnResolveResult * State.

(** external urls, data urls, special queries *)
Definition onResolve_external : ResolveHook :=
  fun st args => (Some (externalResult (path args)), st).

(** local scripts *)
Definition onResolve_virtualModule : ResolveHook :=
  fun st args =>
    (Some {| resolvedPath := replaceFirst (path args) virtualModulePrefix "";
             external := false; namespace := Some "script" |}, st).

(** html types *)
Definition onResolve_html : ResolveHook :=
  fun st args =>
    let '(resolved, st1) := resolve st (path args) (Some (importer args)) None in
    match resolved with
    | Some r =>
        if negb (truthy r) then (None, st1)
        else if includes r "node_modules" && isOptimizable H r (optimizeDeps config)
        then (None, st1)
        else (Some {| resolvedPath := r; external := false;
                      namespace := Some "html" |}, st1)
    | None => (None, st1)
    end.

Definition depScanOptions (args : OnResolveArgs) : option ResolveIdOptions :=
  Some {| depScanLoader := pluginData args |}.

Definition includesOpt (l : option (list string)) (id : string) : bool :=
  match l with Some l => existsb (String.eqb id) l | None => false end.

Definition namespaceOf (resolved : string) : option string :=
  if test false htmlTypesRE resolved then Some "html" else None.

(** bare imports: record and externalize *)
Definition onResolve_bare : ResolveHook :=
  fun st args =>
    let id := path args in
    if moduleListContains H pluginExclude id then
      (Some (externalUnlessEntry id), st)
    else if truthyGet (depImports st) id then
      (Some (externalUnlessEntry id), st)
    else
      let '(resolved, st1) :=
        resolve st id (Some (importer args)) (depScanOptions args) in
      if truthyOpt resolved then
        let r := default "" resolved in
        if shouldExternalizeDep r id then (Some (externalUnlessEntry id), st1)
        else if includes r "node_modules" || includesOpt pluginInclude id then
          let st2 :=
            if isOptimizable H r (optimizeDeps config) then withDep st1 id r
            else st1 in
          (Some (externalUnlessEntry id), st2)
        else if isScannable r then
          (Some {| resolvedPath := path_resolve H [r]; external := false;
                   namespace := namespaceOf r |}, st1)
        else (Some (externalUnlessEntry id), st1)
      else
        (None, withMissing st1 id (normalizePath H (importer args))).

(** css, json, wasm and known asset types *)
Definition onResolve_externalUnlessEntry : ResolveHook :=
  fun st args => (Some (externalUnlessEntry (path args)), st).

(** catch all *)
Definition onResolve_catchAll : ResolveHook :=
  fun st args =>
    let id := path args in
    let '(resolved, st1) :=
      resolve st id (Some (importer args)) (depScanOptions args) in
    if truthyOpt resolved then
      let r := default "" resolved in
      if shouldExternalizeDep r id || negb (isScannable r) then
        (Some (externalUnlessEntry id), st1)
      else
        (Some {| resolvedPath := path_resolve H [cleanUrl H r]; external := false;
                 namespace := namespaceOf r |}, st1)
    else (Some (externalUnlessEntry id), st1).

(** The hooks registered after the bare-import hook: externalized file
    types, special queries, catch all. *)
Definition fallbackHooks : list ((string -> bool) * ResolveHook) :=
  [ (test false cssJsonWasmRE, onResolve_externalUnlessEntry);
    (knownAssetTypesRE H, onResolve_externalUnlessEntry);
    (SPECIAL_QUERY_RE H, onResolve_external);
    (fun _ => true, onResolve_catchAll) ].

Definition resolveHooks : list ((string -> bool) * ResolveHook) :=
  (test false externalRE, onResolve_external)
  :: (dataUrlRE H, onResolve_external)
  :: (test false virtualModuleRE, onResolve_virtualModule)
  :: (test false htmlTypesRE, onResolve_html)
  :: (test false bareImportRE, onResolve_bare)
  :: fallbackHooks.

(** esbuild runs the hooks whose filter matches the path, in order, until
    one of them returns a result. *)
Fixpoint runResolveHooks (hooks : list ((string -> bool) * ResolveHook))
    (st : State) (args : OnResolveArgs) : option OnResolveResult * State :=
  match hooks with
  | [] => (None, st)
  | (filter, hook) :: hooks' =>
      if filter (path args) then
        match hook st args with
        | (Some r, st') => (Some r, st')
        | (None, st') => runResolveHooks hooks' st' args
        end
      else runResolveHooks hooks' st args
  end.

Definition onResolve (st : State) (args : OnResolveArgs)
    : option OnResolveResult * State :=
  runResolveHooks resolveHooks st args.

(** *** The [onLoad] hooks *)

(** [m && (m[1] || m[2] || m[3])] for [m = openTag.match(re)] *)
Definition attributeValue (r : re) (openTag : string) : option string :=
  match matchOnce true r openTag with
  | Some cs => orElse (group cs 1) (orElse (group cs 2) (group cs 3))
  | None => None
  end.

(** Whether the hook skips a block because of its [type]:
    [type && !(type.includes('javascript') || type.includes('ecmascript')
    || type === 'module')]. *)
Definition skippedType (type : option string) : bool :=
  match type with
  | Some t =>
      truthy t &&
      negb (includes t "javascript" || includes t "ecmascript"
            || String.eqb t "module")
  | None => false
  end.

Definition loaderOf (path : string) (lang : option string) : string :=
  match lang with
  | Some l =>
      if String.eqb l "ts" || String.eqb l "tsx" || String.eqb l "jsx" then l
      else if endsWith path ".astro" then "ts" else "js"
  | None => if endsWith path ".astro" then "ts" else "js"
  end.

(** The registration of one inline script: [scripts[key] = ...]. *)
Definition registerScript (st : State) (build : nat) (path key contents
    loader : string) : option State :=
  if includes contents "import.meta.glob" then
    '(transformed, st') ← doTransformGlobImport st contents path loader;
    Some (withScript st' build key
            {| loader := "js"; contents := transformed;
               htmlTypeLoader := Some loader |})
  else
    Some (withScript st build key
            {| loader := loader; contents := contents;
               htmlTypeLoader := Some loader |}).

(** One turn of the loop [while ((match = regex.exec(raw)))] of the html
    hook, on the text [js], the counter [scriptId] and the shared state. *)
Definition scriptBlock (build : nat) (path : string)
    (acc : string * nat * State) (m : Match) : option (string * nat * State) :=
  let '(js, scriptId, st) := acc in
  let openTag := default "" (group (groups m) 1) in
  let content := default "" (group (groups m) 2) in
  let type := attributeValue typeRE openTag in
  let lang := attributeValue langRE openTag in
  if skippedType type then Some acc
  else
    let loader := loaderOf path lang in
    match matchOnce true srcRE openTag with
    | Some cs =>
        let src := orElse (group cs 1) (orElse (group cs 2) (group cs 3)) in
        Some (js ++ "import " ++ JSON_stringify (default "" src) ++ NL,
              scriptId, st)
    | None =>
        if truthy (trim content) then
          let contents :=
            content ++
            (if startsWith loader "ts" then extractImportPaths H content else "") in
          let key := path ++ "?id=" ++ numberToString scriptId in
          st' ← registerScript st build path key contents loader;
          let virtualModulePath := JSON_stringify (virtualModulePrefix ++ key) in
          let context := attributeValue contextRE openTag in
          if endsWith path ".svelte"
             && negb (bool_decide (context = Some "module"))
          then Some (js ++ "import " ++ virtualModulePath ++ NL, S scriptId, st')
          else Some (js ++ "export * from " ++ virtualModulePath ++ NL,
                     S scriptId, st')
        else Some acc
    end.

Fixpoint scriptBlocks (build : nat) (path : string)
    (acc : string * nat * State) (ms : list Match)
    : option (string * nat * State) :=
  match ms with
  | [] => Some acc
  | m :: ms' =>
      acc' ← scriptBlock build path acc m;
      scriptBlocks build path acc' ms'
  end.

(** html types: extract the scripts of an HTML-like file and treat them as
    a js module. [None] when a call throws or the loop does not end. *)
Definition onLoad_html (st : State) (build : nat) (path : string)
    : option (OnLoadResult * State) :=
  raw ← readFileSync H path;
  let st := emit st (ReadFile path) in
  let raw := replaceAll false commentRE "<!---->" raw in
  let isHtml := endsWith path ".html" in
  let regex := if isHtml then scriptModuleRE else scriptRE in
  ms ← execAll true regex raw;
  '(js, _, st') ← scriptBlocks build path ("", 0, st) ms;
  let js :=
    if negb (endsWith path ".vue") || negb (includes js "export default")
    then js ++ NL ++ "export default {}"
    else js in
  Some ({| loader := "js"; contents := js; htmlTypeLoader := None |}, st').

(** jsx/tsx and the other js types *)
Definition onLoad_js (st : State) (id : string)
    : option (OnLoadResult * State) :=
  let ext := dropString 1 (path_extname H id) in
  let ext := if String.eqb ext "mjs" then "js" else ext in
  contents ← readFileSync H id;
  let st := emit st (ReadFile id) in
  let contents :=
    match esbuild config with
    | Some o =>
        match jsxInject o with
        | Some inject =>
            if endsWith ext "x" && truthy inject then inject ++ NL ++ contents
            else contents
        | None => contents
        end
    | None => contents
    end in
  let loader :=
    match esbuildLoader (optimizeDeps config) !! ("." ++ ext) with
    | Some l => if truthy l then l else ext
    | None => ext
    end in
  if includes contents "import.meta.glob" then
    '(transformed, st') ← doTransformGlobImport st contents id loader;
    Some ({| loader := "js"; contents := transformed; htmlTypeLoader := None |},
          st')
  else
    Some ({| loader := loader; contents := contents; htmlTypeLoader := None |},
          st).

Definition inNamespace (ns : option string) (name : string) : bool :=
  match ns with Some n => String.eqb n name | None => String.eqb name "file" end.

(** The load of a module that a resolve hook did not externalize: the
    [script] hook, the [html] hook, the hook for js types (registered without
    a namespace), and otherwise esbuild itself, which reads a module of the
    [file] namespace from disk and has no loader for another namespace. *)
Definition onLoad (st : State) (build : nat) (p : string)
    (ns : option string) : option (option OnLoadResult * State) :=
  match (if inNamespace ns "script" then scripts st !! (build, p) else None) with
  | Some r => Some (Some r, st)
  | None =>
      if inNamespace ns "html" && test false htmlTypesRE p then
        '(r, st') ← onLoad_html st build p; Some (Some r, st')
      else if JS_TYPES_RE H p then
        '(r, st') ← onLoad_js st p; Some (Some r, st')
      else if inNamespace ns "file" then
        _ ← readFileSync H p; Some (None, emit st (ReadFile p))
      else None
  end.

End Plugin.

(* ================================================================== *)
(** ** The crawl and [scanImports] *)
(* ================================================================== *)

(** One import edge that esbuild meets in the crawl number [edgeBuild]. *)
Record Edge : Type := {
  edgeBuild : nat;
  edgeArgs : OnResolveArgs
}.

Module ScanResult.
Record t : Type := {
  deps : JsObject string;
  missing : JsObject string
}.
End ScanResult.

Inductive Error : Type :=
| InvalidInput (msg : string)    (* new Error('invalid rollupOptions.input value.') *)
| BuildFailure.                  (* a rejected [build] *)

Inductive Outcome : Type :=
| Throws (e : Error)
| Returns (r : ScanResult.t).

Section Scan.
Context (H : Host) (config : ResolvedConfig).

(** Modelled from the spec: the external bundling engine, which is not part
    of the repository. For each import edge it runs the resolve hooks; an
    edge marked external is terminal, the target of any other edge is loaded
    through the load hooks; a hook that throws makes the crawl fail. *)
Definition crawlEdge (pluginEntries : list string) (st : State) (e : Edge)
    : option State :=
  let '(r, st1) := onResolve H config pluginEntries st (edgeArgs e) in
  match r with
  | Some r =>
      if external r then Some st1
      else snd <$> onLoad H config st1 (edgeBuild e) (resolvedPath r) (namespace r)
  | None =>
      snd <$> onLoad H config st1 (edgeBuild e) (path (edgeArgs e)) None
  end.

Fixpoint crawlEdges (pluginEntries : list string) (st : State)
    (crawl : list Edge) : option State :=
  match crawl with
  | [] => Some st
  | e :: crawl' =>
      st' ← crawlEdge pluginEntries st e;
      crawlEdges pluginEntries st' crawl'
  end.

(** The state in which the crawls start: one [build] launched per entry. *)
Definition launch (es : list string) : State :=
  fold_left (fun st entry => emit st (Build entry)) es initialState.

(** [orderedDependencies(deps)] *)
Definition orderedDependencies (deps : JsObject string) : JsObject string :=
  let depsList :=
    Js.sort (fun a b => localeCompare H (fst a) (fst b)) (Js.entries deps) in
  Js.fromEntries depsList.

Definition truthyPatterns (p : option EntryPatterns) : bool :=
  match p with
  | Some (PatternString s) => truthy s
  | Some (PatternList _) => true
  | None => false
  end.

Definition truthyInput (i : option BuildInput) : bool :=
  match i with
  | Some (InputString s) => truthy s
  | Some (InputArray _) => true
  | Some (InputObject _) => true
  | Some (InputOther b) => b
  | None => false
  end.

(** [globEntries(pattern, config)] *)
Definition globEntries (pattern : EntryPatterns) : list string :=
  glob H pattern (root config)
    (["**/node_modules/**"; ("**/" ++ outDir config ++ "/**")%string]
     ++ (if truthyPatterns (entries (optimizeDeps config)) then []
         else ["**/__tests__/**"; "**/coverage/**"]))%list.

Definition resolvePath (p : string) : string := path_resolve H [root config; p].

(** The first part of [scanImports]: the entries before they are filtered, or
    the error thrown. *)
Definition discoverEntries : Error + list string :=
  let explicitEntryPatterns := entries (optimizeDeps config) in
  let buildInput := rollupInput config in
  if truthyPatterns explicitEntryPatterns then
    inr (globEntries (default (PatternList []) explicitEntryPatterns))
  else if truthyInput buildInput then
    match buildInput with
    | Some (InputString s) => inr [resolvePath s]
    | Some (InputArray l) => inr (map resolvePath l)
    | Some (InputObject o) => inr (map resolvePath (map snd o))
    | _ => inl (InvalidInput "invalid rollupOptions.input value.")
    end
  else inr (globEntries (PatternString "**/*.html")).

Definition scannableEntries (es : list string) : list string :=
  List.filter (fun entry => isScannable H entry && existsSync H entry) es.

Definition noEntryWarning : string :=
  "(!) Could not auto-determine entry point from rollupOptions or html files "
  ++ "and there are no explicit optimizeDeps.include patterns. "
  ++ "Skipping dependency pre-bundling.".

(** [scanImports(config)]. The import edges that esbuild meets in the crawls
    it is asked to run are the argument [crawl]; the result comes with the
    events that the caller can observe (of a scan that a failing crawl
    aborts, those up to the launch of the crawls). *)
Definition scanImports (crawl : list Edge) : Outcome * list Event :=
  match discoverEntries with
  | inl e => (Throws e, [])
  | inr found =>
      let es := scannableEntries found in
      match es with
      | [] =>
          (Returns {| ScanResult.deps := []; ScanResult.missing := [] |},
           if negb (truthyPatterns (entries (optimizeDeps config)))
              && negb (bool_decide (is_Some (include (optimizeDeps config))))
           then [Warn noEntryWarning] else [])
      | _ :: _ =>
          match crawlEdges es (launch es) crawl with
          | None => (Throws BuildFailure, events (launch es))
          | Some st =>
              (Returns {| ScanResult.deps := orderedDependencies (depImports st);
                          ScanResult.missing := missing st |},
               events st)
          end
      end
  end.

End Scan.

(* ================================================================== *)
(** ** Patterns with assertions: [importsRE] and [extractImportPaths] *)
(* ================================================================== *)

(** [importsRE] is the one pattern of scan.ts with lookahead and lookbehind
    assertions and the [m] flag. A position of the input is given by the
    text before it, in reverse, and the text after it. The body of an
    assertion of [importsRE] holds no group: it is a [plain] pattern, and an
    assertion only asks whether its body can match, forwards from the
    position for a lookahead, and from some earlier position up to the
    position for a lookbehind. *)
Module Assertions.

Inductive plain : Type :=
| PEps
| PLit (c : cls)
| PSeq (r1 r2 : plain)
| PAlt (r1 r2 : plain)
| PStar (c : cls)           (* [c*] *)
| PBol                      (* [^] under the [m] flag *)
| PEol.                     (* [$] under the [m] flag *)

Inductive rx : Type :=
| Eps
| Lit (c : cls)
| Seq (r1 r2 : rx)
| Alt (r1 r2 : rx)
| Star (c : cls)            (* [c*] *)
| Group (i : nat) (r : rx)  (* the [i]-th capturing group *)
| Ahead (p : plain)         (* [(?=p)] *)
| NotAhead (p : plain)      (* [(?!p)] *)
| Behind (p : plain)        (* [(?<=p)] *)
| NotBehind (p : plain).    (* [(?<!p)] *)

Fixpoint cat (l : list rx) : rx :=
  match l with
  | [] => Eps
  | [r] => r
  | r :: l' => Seq r (cat l')
  end.

Definition chr (c : ascii) : rx := Lit (OneOf [Chr c]).
Definition plus (c : cls) : rx := Seq (Lit c) (Star c).

Fixpoint str (s : string) : rx :=
  match s with
  | EmptyString => Eps
  | String c EmptyString => chr c
  | String c s' => Seq (chr c) (str s')
  end.

Definition pchr (c : ascii) : plain := PLit (OneOf [Chr c]).
Definition pplus (c : cls) : plain := PSeq (PLit c) (PStar c).

Fixpoint pstr (s : string) : plain :=
  match s with
  | EmptyString => PEps
  | String c EmptyString => pchr c
  | String c s' => PSeq (pchr c) (pstr s')
  end.

(** The line terminators among the code units below 256. *)
Definition isLineTerminator (c : ascii) : bool :=
  let n := nat_of_ascii c in ((n =? 10) || (n =? 13))%nat.

(** [.] without the [s] flag *)
Definition dot : cls := NoneOf [Chr (ascii_of_nat 10); Chr (ascii_of_nat 13)].

(** [^] and [$] under the [m] flag. *)
Definition lineStart (before : string) : bool :=
  match before with
  | EmptyString => true
  | String c _ => isLineTerminator c
  end.

Definition lineEnd (s : string) : bool :=
  match s with
  | EmptyString => true
  | String c _ => isLineTerminator c
  end.

(** Whether a plain pattern can match from a position in such a way that
    [k] accepts the position it ends at. *)
Fixpoint pstar (c : cls) (before s : string) (k : string -> string -> bool)
    : bool :=
  k before s
  || match s with
     | String a s' => clsMatch false c a && pstar c (String a before) s' k
     | EmptyString => false
     end.

Fixpoint accepts (r : plain) (before s : string)
    (k : string -> string -> bool) : bool :=
  match r with
  | PEps => k before s
  | PLit c =>
      match s with
      | String a s' => clsMatch false c a && k (String a before) s'
      | EmptyString => false
      end
  | PSeq r1 r2 => accepts r1 before s (fun b' s' => accepts r2 b' s' k)
  | PAlt r1 r2 => accepts r1 before s k || accepts r2 before s k
  | PStar c => pstar c before s k
  | PBol => lineStart before && k before s
  | PEol => lineEnd s && k before s
  end.

(** [(?=p)] at a position. *)
Definition ahead (p : plain) (before s : string) : bool :=
  accepts p before s (fun _ _ => true).

(** [(?<=p)] at a position: [p] matches the text between some earlier
    position and this one. [between] is the text from the position tried to
    the position of the assertion. *)
Fixpoint behindFrom (p : plain) (before between s : string) : bool :=
  accepts p before (between ++ s)
    (fun _ s' => (String.length s' =? String.length s)%nat)
  || match before with
     | String a before' => behindFrom p before' (String a between) s
     | EmptyString => false
     end.

Definition behind (p : plain) (before s : string) : bool :=
  behindFrom p before "" s.

Section Matcher.
Context {R : Type}.

(** A continuation receives the position and the captures. *)
Definition Cont : Type := string -> string -> Caps -> option R.

Fixpoint starGreedy (c : cls) (before s : string)
    (k : string -> string -> option R) : option R :=
  match s with
  | String a s' =>
      if clsMatch false c a then
        match starGreedy c (String a before) s' k with
        | Some x => Some x
        | None => k before s
        end
      else k before s
  | EmptyString => k before s
  end.

Fixpoint run (r : rx) (before s : string) (cs : Caps) (k : Cont) : option R :=
  match r with
  | Eps => k before s cs
  | Lit c =>
      match s with
      | String a s' =>
          if clsMatch false c a then k (String a before) s' cs else None
      | EmptyString => None
      end
  | Seq r1 r2 => run r1 before s cs (fun b' s' cs' => run r2 b' s' cs' k)
  | Alt r1 r2 =>
      match run r1 before s cs k with
      | Some x => Some x
      | None => run r2 before s cs k
      end
  | Star c => starGreedy c before s (fun b' s' => k b' s' cs)
  | Group i r1 =>
      run r1 before s cs (fun b' s' cs' => k b' s' ((i, consumed s s') :: cs'))
  | Ahead p => if ahead p before s then k before s cs else None
  | NotAhead p => if ahead p before s then None else k before s cs
  | Behind p => if behind p before s then k before s cs else None
  | NotBehind p => if behind p before s then None else k before s cs
  end.
End Matcher.

(** One match: its text, its captures and the position after it. *)
Record Found : Type := {
  text : string;
  captures : Caps;
  beforeRest : string;
  rest : string
}.

(** [r.exec(s)] for a pattern with the [g] flag, from the position of
    [lastIndex]: the leftmost match at or after it. *)
Fixpoint exec (r : rx) (before s : string) : option Found :=
  match run r before s [] (fun b' s' cs => Some (b', s', cs)) with
  | Some (b', s', cs) =>
      Some {| text := consumed s s'; captures := cs; beforeRest := b'; rest := s' |}
  | None =>
      match s with
      | String a s' => exec r (String a before) s'
      | EmptyString => None
      end
  end.

(** [Matches r before s cs before' s' cs']: the pattern [r] can match from
    the position [(before, s)] with the captures [cs], ending at the
    position [(before', s')] with the captures [cs']. *)
Inductive Matches : rx -> string -> string -> Caps -> string -> string -> Caps
    -> Prop :=
| M_Eps b s cs : Matches Eps b s cs b s cs
| M_Lit c a b s cs :
    clsMatch false c a = true ->
    Matches (Lit c) b (String a s) cs (String a b) s cs
| M_Seq r1 r2 b s cs b1 s1 cs1 b2 s2 cs2 :
    Matches r1 b s cs b1 s1 cs1 -> Matches r2 b1 s1 cs1 b2 s2 cs2 ->
    Matches (Seq r1 r2) b s cs b2 s2 cs2
| M_AltL r1 r2 b s cs b' s' cs' :
    Matches r1 b s cs b' s' cs' -> Matches (Alt r1 r2) b s cs b' s' cs'
| M_AltR r1 r2 b s cs b' s' cs' :
    Matches r2 b s cs b' s' cs' -> Matches (Alt r1 r2) b s cs b' s' cs'
| M_StarEnd c b s cs : Matches (Star c) b s cs b s cs
| M_StarStep c a b s cs b' s' cs' :
    clsMatch false c a = true ->
    Matches (Star c) (String a b) s cs b' s' cs' ->
    Matches (Star c) b (String a s) cs b' s' cs'
| M_Group i r b s cs b' s' cs' :
    Matches r b s cs b' s' cs' ->
    Matches (Group i r) b s cs b' s' ((i, consumed s s') :: cs')
| M_Ahead p b s cs : ahead p b s = true -> Matches (Ahead p) b s cs b s cs
| M_NotAhead p b s cs : ahead p b s = false -> Matches (NotAhead p) b s cs b s cs
| M_Behind p b s cs : behind p b s = true -> Matches (Behind p) b s cs b s cs
| M_NotBehind p b s cs :
    behind p b s = false -> Matches (NotBehind p) b s cs b s cs.

(** A text whose characters are all in a class. *)
Fixpoint allOf (c : cls) (t : string) : bool :=
  match t with
  | EmptyString => true
  | String a t' => clsMatch false c a && allOf c t'
  end.

(** The texts that a pattern matches, its assertions left aside, with the
    captures before and after the match. *)
Fixpoint Text (r : rx) (t : string) (cs cs' : Caps) : Prop :=
  match r with
  | Eps => t = "" /\ cs' = cs
  | Lit c => (exists a, t = String a "" /\ clsMatch false c a = true) /\ cs' = cs
  | Seq r1 r2 =>
      exists t1 t2 cs1, t = t1 ++ t2 /\ Text r1 t1 cs cs1 /\ Text r2 t2 cs1 cs'
  | Alt r1 r2 => Text r1 t cs cs' \/ Text r2 t cs cs'
  | Star c => allOf c t = true /\ cs' = cs
  | Group i r1 => exists cs1, Text r1 t cs cs1 /\ cs' = (i, t) :: cs1
  | Ahead _ | NotAhead _ | Behind _ | NotBehind _ => t = "" /\ cs' = cs
  end.

(** A lower bound on the length of a match. *)
Fixpoint minLen (r : rx) : nat :=
  match r with
  | Lit _ => 1
  | Seq r1 r2 => minLen r1 + minLen r2
  | Alt r1 r2 => Nat.min (minLen r1) (minLen r2)
  | Group _ r1 => minLen r1
  | _ => 0
  end.

End Assertions.

(** [importsRE] and the body of [extractImportPaths]. The hooks take the
    function from the host (the field [extractImportPaths] of [Host]),
    because two of the three patterns it uses are declared in ../utils; the
    body is given here for any two replacements of comments. *)
Module Imports.
Import Assertions.

(** A specifier between two quotes [q], as in group 1. *)
Definition quoted (q : ascii) : rx :=
  cat [chr q; plus (NoneOf [Chr q]); chr q].

(** [[\w*{}\n\r\t, ]] *)
Definition clauseChar : cls :=
  OneOf [ Word; Chr "*"; Chr "{"; Chr "}"; Chr (ascii_of_nat 10);
          Chr (ascii_of_nat 13); Chr (ascii_of_nat 9); Chr ","; Chr " " ].

(** [importsRE], with the flags [g] and [m]. Its parts, in order:
    - the assertion [(?<!] [\/\/.*] [)]: not after [//] on the same line;
    - the assertion [(?<=] [^|;|\*\/] [)]: after the start of a line, a
      semicolon or the end of a block comment;
    - [\s*import];
    - the assertion [(?!] [\s+type] [)];
    - the optional clause [(?:[\w*{}\n\r\t, ]+from)?];
    - [\s*], the group 1 with a specifier in double or in single quotes,
      [\s*];
    - the assertion [(?=] [$|;|\/\/|\/\*] [)]. *)
Definition importsRE : rx :=
  cat [ NotBehind (PSeq (pstr "//") (PStar dot));
        Behind (PAlt PBol (PAlt (pchr ";") (pstr "*/")));
        Star (OneOf [Space]);
        str "import";
        NotAhead (PSeq (pplus (OneOf [Space])) (pstr "type"));
        Alt (Seq (plus clauseChar) (str "from")) Eps;
        Star (OneOf [Space]);
        Group 1 (Alt (quoted dquote) (quoted "'"));
        Star (OneOf [Space]);
        Ahead (PAlt PEol (PAlt (pchr ";") (PAlt (pstr "//") (pstr "/*")))) ].

(** The loop [while ((m = importsRE.exec(code)) != null)] of
    [extractImportPaths], on the text [js] gathered so far. After a match
    of no character the loop moves [lastIndex] on by one; past the end of
    the code, the next [exec] finds nothing. [None] when the fuel runs
    out. *)
Fixpoint importLoop (fuel : nat) (before s js : string) : option string :=
  match fuel with
  | O => None
  | S fuel' =>
      match exec importsRE before s with
      | None => Some js
      | Some m =>
          let js' :=
            js ++ NL ++ "import " ++ default "undefined" (group (captures m) 1) in
          match text m, rest m with
          | EmptyString, EmptyString => Some js'
          | EmptyString, String a s' =>
              importLoop fuel' (String a (beforeRest m)) s' js'
          | String _ _, _ => importLoop fuel' (beforeRest m) (rest m) js'
          end
      end
  end.

Section Extract.
(** [code.replace(multilineCommentsRE, '/* */')] and
    [code.replace(singlelineCommentsRE, '')], whose patterns are declared in
    ../utils. *)
Context (replaceMultilineComments replaceSinglelineComments : string -> string).

(** [extractImportPaths(code)] *)
Definition extractImportPaths (code : string) : option string :=
  let code := replaceSinglelineComments (replaceMultilineComments code) in
  importLoop (S (String.length code)) "" code "".

End Extract.

End Imports.

(* ================================================================== *)
(** ** A host for the examples *)
(* ================================================================== *)

(** A POSIX host: paths are split at [/], resolution and the file system are
    tables, the collation compares code units, and the patterns of ../utils
    and ../constants are those of the dev server. *)
Module ExampleHost.

Fixpoint lastSlash (s : string) (i : nat) (found : option nat) : option nat :=
  match s with
  | EmptyString => found
  | String c s' =>
      lastSlash s' (S i) (if Ascii.eqb c "/" then Some i else found)
  end.

(** [path.posix.dirname] on a path without a trailing slash *)
Definition dirname (p : string) : string :=
  match lastSlash p 0 None with
  | Some O => "/"
  | Some i => takeString i p
  | None => "."
  end.

Fixpoint lastDot (s : string) (i : nat) (found : option nat) : option nat :=
  match s with
  | EmptyString => found
  | String c s' =>
      lastDot s' (S i)
        (if Ascii.eqb c "." then Some i
         else if Ascii.eqb c "/" then None else found)
  end.

Definition extname (p : string) : string :=
  match lastDot p 0 None with
  | Some i => dropString i p
  | None => ""
  end.

Definition isAbsolute (p : string) : bool := startsWith p "/".

Fixpoint resolveFrom (cwd : string) (l : list string) : string :=
  match l with
  | [] => cwd
  | p :: l' =>
      resolveFrom (if isAbsolute p then p
                   else if String.eqb cwd "/" then cwd ++ p
                   else cwd ++ "/" ++ p) l'
  end.

Fixpoint untilQuery (s : string) : string :=
  match s with
  | EmptyString => EmptyString
  | String c s' =>
      if Ascii.eqb c "?" || Ascii.eqb c "#" then EmptyString
      else String c (untilQuery s')
  end.

Definition contains (moduleList : list string) (id : string) : bool :=
  existsb (fun m => String.eqb m id || startsWith id (m ++ "/")) moduleList.

(** [/^\s*data:/i] *)
Definition dataUrl : re := cat [ Bol; Star (OneOf [Space]); str "data:" ].

(** [/\.(?:j|t)sx?$|\.mjs$/] *)
Definition jsTypes : re :=
  Alt (cat [ chr "."; Alt (chr "j") (chr "t"); chr "s"; Alt (chr "x") Eps; Eol ])
      (cat [ str ".mjs"; Eol ]).

(** [/\.[cm]?[jt]s$/] *)
Definition optimizableEntry : re :=
  cat [ chr "."; Alt (Lit (OneOf [Chr "c"; Chr "m"])) Eps;
        Lit (OneOf [Chr "j"; Chr "t"]); chr "s"; Eol ].

Definition knownAssets : re :=
  cat [ chr "."; alt (str "png") [str "svg"; str "woff2"; str "txt"]; Eol ].

(** [/[?&](?:worker|sharedworker|raw|url)\b/] *)
Definition specialQuery : re :=
  cat [ Lit (OneOf [Chr "?"; Chr "&"]);
        alt (str "worker") [str "sharedworker"; str "raw"; str "url"];
        WordBoundary ].

(** The order of the code units. *)
Fixpoint codeUnitCompare (a b : string) : Z :=
  match a, b with
  | EmptyString, EmptyString => 0
  | EmptyString, String _ _ => -1
  | String _ _, EmptyString => 1
  | String x a', String y b' =>
      if (N_of_ascii x <? N_of_ascii y)%N then -1
      else if (N_of_ascii y <? N_of_ascii x)%N then 1
      else codeUnitCompare a' b'
  end.

Fixpoint lookupFile (files : list (string * string)) (p : string)
    : option string :=
  match files with
  | [] => None
  | (q, text) :: files' => if String.eqb p q then Some text else lookupFile files' p
  end.

Definition make
    (resolver : string -> option string -> option string)
    (files : list (string * string))
    (globbed : list string) : Host :=
  {| resolveId := fun id importer _ => resolver id importer;
     existsSync := fun p => bool_decide (is_Some (lookupFile files p));
     readFileSync := lookupFile files;
     glob := fun _ _ _ => globbed;
     path_resolve := resolveFrom "/";
     path_dirname := dirname;
     path_isAbsolute := isAbsolute;
     path_extname := extname;
     normalizePath := fun p => p;
     cleanUrl := untilQuery;
     isOptimizable := fun id _ => test false optimizableEntry id;
     moduleListContains := contains;
     dataUrlRE := test true dataUrl;
     JS_TYPES_RE := test false jsTypes;
     knownAssetTypesRE := test false knownAssets;
     SPECIAL_QUERY_RE := test false specialQuery;
     transform := fun contents _ => Some contents;
     transformGlobImport := fun seen _ _ _ => (None, seen);
     extractImportPaths := fun _ => "";
     localeCompare := codeUnitCompare |}.

Definition config0 : ResolvedConfig :=
  {| root := "/project";
     optimizeDeps := {| entries := None; include := None; exclude := None;
                        esbuildLoader := ∅ |};
     rollupInput := None;
     outDir := "dist";
     esbuild := None |}.

End ExampleHost.

(* ================================================================== *)
(** ** Vocabulary of the properties *)
(* ================================================================== *)

(** *** Objects and sorting *)

(** A property whose key is not an array index. *)
Definition named {V : Type} (kv : string * V) : bool :=
  negb (isArrayIndex (fst kv)).

(** Two array indices in ascending order. *)
Definition indexLe (a b : string) : Prop :=
  match arrayIndex a, arrayIndex b with
  | Some m, Some n => (m <= n)%N
  | _, _ => False
  end.

(** Keys in enumeration order: the array indices first, ascending. *)
Inductive Enumerated : list string -> Prop :=
| Enumerated_named ks :
    Forall (fun k => isArrayIndex k = false) ks -> Enumerated ks
| Enumerated_index k ks :
    isArrayIndex k = true ->
    Forall (fun k' => isArrayIndex k' = true -> indexLe k k') ks ->
    Enumerated ks -> Enumerated (k :: ks).

(** [Object.fromEntries], started from an object [acc]. *)
Definition assign {V : Type} (acc : JsObject V) (l : list (string * V))
    : JsObject V :=
  fold_left (fun o kv => Js.set (fst kv) (snd kv) o) l acc.

(** [a] does not come after [b] for the comparator. *)
Definition before {A : Type} (cmp : A -> A -> Z) (a b : A) : Prop :=
  (cmp a b <= 0)%Z.

(** A comparator that [sort] can rely on: any two strings are ordered, and
    the order is transitive. *)
Definition Consistent (cmp : string -> string -> Z) : Prop :=
  (forall a b, (cmp a b <= 0)%Z \/ (cmp b a <= 0)%Z)
  /\ (forall a b c, (cmp a b <= 0)%Z -> (cmp b c <= 0)%Z -> (cmp a c <= 0)%Z).

(** No two different keys of [ks] compare as equal. *)
Definition NoTies (cmp : string -> string -> Z) (ks : list string) : Prop :=
  forall a b, In a ks -> In b ks -> (cmp a b <= 0)%Z -> (cmp b a <= 0)%Z -> a = b.

(** The comparator of [orderedDependencies]: [a[0].localeCompare(b[0])]. *)
Definition byKey (H : Host) (a b : string * string) : Z :=
  localeCompare H (fst a) (fst b).

(** *** The matcher *)

(** A lower bound on the length of a match. *)
Fixpoint minLen (r : re) : nat :=
  match r with
  | Lit _ => 1
  | Seq r1 r2 => minLen r1 + minLen r2
  | Alt r1 r2 => Nat.min (minLen r1) (minLen r2)
  | Group _ r1 => minLen r1
  | _ => 0
  end.

(** *** The hooks *)

(** The records of a state: what the hooks write for the caller and for
    each other. *)
Definition sameRecords (st st' : State) : Prop :=
  depImports st' = depImports st /\ missing st' = missing st
  /\ scripts st' = scripts st.

Definition sameDeps (st st' : State) : Prop :=
  depImports st' = depImports st /\ missing st' = missing st.

(** No file was read between two states. *)
Definition quiet (st st' : State) : Prop :=
  forall p, In (ReadFile p) (events st') -> In (ReadFile p) (events st).

(** The hints about states whose records agree. *)
Create HintDb records.

(** Closes the case of a hook that returns a result and the state it was
    given. *)
Ltac returns_same :=
  intros [= <- <-]; repeat split; eauto with records.

(** A specifier that reaches the filter of the bare-import hook: the
    pattern of that hook matches it, and none of the hooks for remote URLs,
    data URLs and virtual modules claims it first. *)
Definition bareSpecifier (H : Host) (id : string) : bool :=
  test false bareImportRE id && negb (test false externalRE id)
  && negb (dataUrlRE H id) && negb (test false virtualModuleRE id).

(** A specifier that the bare-import hook can record: a bare specifier that
    is not excluded. *)
Definition Recordable (H : Host) (config : ResolvedConfig) (k : string) : Prop :=
  test false externalRE k = false /\ dataUrlRE H k = false
  /\ test false virtualModuleRE k = false
  /\ test false bareImportRE k = true
  /\ moduleListContains H (pluginExclude config) k = false.

(** What one run of the resolve hooks does to [deps] and [missing]. *)
Inductive Change (H : Host) (config : ResolvedConfig) (st : State)
    (args : OnResolveArgs) (st' : State) : Prop :=
| Unchanged :
    depImports st' = depImports st -> missing st' = missing st ->
    Change H config st args st'
| Recorded r :
    truthy r = true ->
    moduleListContains H (pluginExclude config) (path args) = false ->
    truthyGet (depImports st) (path args) = false ->
    depImports st' = Js.set (path args) r (depImports st) ->
    missing st' = missing st ->
    Change H config st args st'
| Missed :
    moduleListContains H (pluginExclude config) (path args) = false ->
    truthyGet (depImports st) (path args) = false ->
    depImports st' = depImports st ->
    missing st' = Js.set (path args) (normalizePath H (importer args)) (missing st) ->
    Change H config st args st'.

(** What holds of the records throughout a crawl. *)
Definition StateInv (H : Host) (config : ResolvedConfig) (st : State) : Prop :=
  List.NoDup (keys (depImports st))
  /\ Forall (fun kv => Recordable H config (fst kv) /\ truthy (snd kv) = true)
       (depImports st)
  /\ Forall (fun kv => Recordable H config (fst kv)) (missing st).

(** *** The html hook as a selection of blocks *)






(** *** The records of a scan *)

(** What the bare-import hook has checked of a resolved id [r] when it
    records it under the specifier [id]. *)
Definition recordedAs (H : Host) (config : ResolvedConfig) (id r : string)
    : Prop :=
  truthy r = true
  /\ shouldExternalizeDep H r id = false
  /\ includes r "node_modules" || includesOpt (pluginInclude config) id = true
  /\ isOptimizable H r (optimizeDeps config) = true.

(** What one run of the resolve hooks on the specifier [id] does to
    [deps]. *)
Definition recordsAtMost (H : Host) (config : ResolvedConfig) (st : State)
    (id : string) (st' : State) : Prop :=
  depImports st' = depImports st
  \/ exists r, recordedAs H config id r
               /\ depImports st' = Js.set id r (depImports st).

(** No crawl was launched between two states. *)
Definition sameBuilds (st st' : State) : Prop :=
  forall e, In (Build e) (events st') -> In (Build e) (events st).

(** *** The script registry *)

(** The loaders of an inline script of an html-type file. *)
Definition htmlLoaders : list string := ["js"; "ts"; "tsx"; "jsx"].


(** A virtual module as the html hook registers it. *)
Definition virtualScript (key : string) (s : OnLoadResult) : Prop :=
  (exists p n, key = p ++ "?id=" ++ numberToString n
               /\ test false htmlTypesRE p = true)
  /\ exists l, htmlTypeLoader s = Some l /\ In l htmlLoaders
               /\ (loader s = l \/ loader s = "js").

(** What holds of the registry throughout a crawl. *)
Definition ScriptsInv (st : State) : Prop :=
  forall b key s, scripts st !! (b, key) = Some s -> virtualScript key s.




(** *** Filters on a file extension *)

(** The character before the position that follows a literal [w]. *)
Fixpoint lastChar (prev : option ascii) (w : string) : option ascii :=
  match w with
  | EmptyString => prev
  | String c w' => lastChar (Some c) w'
  end.

(** Whether a run of the matcher succeeded. *)
Definition matched {A : Type} (o : option A) : bool :=
  match o with Some _ => true | None => false end.

(** [/\.(e0|e1|...)$/] *)
Definition extensionRE (e0 : string) (es : list string) : re :=
  cat [ chr "."; Group 1 (alt (str e0) (map str es)); Eol ].

(** *** The imports that [extractImportPaths] recovers *)

(** A specifier as [importsRE] captures it: with its quotes, which are
    double or single, and between them at least one character, none of which
    is the quote. *)
Definition quotedSpecifier (q : string) : Prop :=
  exists c body,
    (c = dquote \/ c = "'"%char)
    /\ q = String c (body ++ String c "")
    /\ body <> ""
    /\ Assertions.allOf (NoneOf [Chr c]) body = true.


(** Whether white space and then [type] follow a position, and whether the
    code holds [import] only at positions that they follow. *)
Definition followedByType (post : string) : bool :=
  match post with
  | String a _ => isSpace a && startsWith (trimStart post) "type"
  | EmptyString => false
  end.

Fixpoint typeOnly (s : string) : bool :=
  (if startsWith s "import" then followedByType (dropString 6 s) else true)
  && match s with
     | EmptyString => true
     | String _ s' => typeOnly s'
     end.

(* ================================================================== *)
(** ** A project for the examples *)
(* ================================================================== *)

Module Example.

(** An HTML entry with a module script that has a [src] and an inline module
    script. *)
Definition document : string :=
  "<!DOCTYPE html>" ++ NL ++
  "<html>" ++ NL ++
  "  <body>" ++ NL ++
  "    <div id=" ++ DQ ++ "root" ++ DQ ++ "></div>" ++ NL ++
  "    <script type=" ++ DQ ++ "module" ++ DQ ++ " src=" ++ DQ ++ "/src/main.ts"
    ++ DQ ++ "></script>" ++ NL ++
  "    <script type=" ++ DQ ++ "module" ++ DQ ++ ">console.log(1)</script>" ++ NL ++
  "  </body>" ++ NL ++
  "</html>" ++ NL.


Definition classicDocument : string :=
  "<script src=" ++ DQ ++ "/legacy.js" ++ DQ ++ "></script>" ++ NL ++
  "<script>import 'left-pad'</script>" ++ NL ++
  "<script type=" ++ DQ ++ "text/javascript" ++ DQ ++ ">import 'moment'</script>"
  ++ NL.

Definition packages : list (string * string) :=
  [ ("react", "/project/node_modules/react/index.js");
    ("vue", "/project/node_modules/vue/dist/vue.runtime.esm-bundler.js");
    ("100", "/project/node_modules/100/index.js");
    ("20", "/project/node_modules/20/index.js");
    ("ui-kit/Button.vue", "/project/node_modules/ui-kit/Button.vue");
    ("@vite/client", "/project/node_modules/vite/dist/client/client.mjs") ].

Definition resolver (id : string) (importer : option string) : option string :=
  ExampleHost.lookupFile packages id.

Definition files : list (string * string) :=
  [ ("/project/index.html", document);
    ("/project/classic.html", classicDocument);
    ("/project/node_modules/ui-kit/Button.vue",
     "<script>import './internal.js'</script>") ].

Definition host : Host :=
  ExampleHost.make resolver files ["/project/index.html"].

(** The same project without any file. *)
Definition emptyHost : Host := ExampleHost.make resolver [] [].

Definition config : ResolvedConfig := ExampleHost.config0.

Definition invalidInputConfig : ResolvedConfig :=
  {| root := "/project";
     optimizeDeps := optimizeDeps ExampleHost.config0;
     rollupInput := Some (InputOther true);
     outDir := "dist";
     esbuild := None |}.

Definition scanEntries : list string := ["/project/index.html"].

Definition main : string := "/project/src/main.ts".

Definition argsOf (id importer : string) : OnResolveArgs :=
  {| path := id; importer := importer; pluginData := None |}.

Definition edge (id importer : string) : Edge :=
  {| edgeBuild := 0; edgeArgs := argsOf id importer |}.

Definition reactPath : string := "/project/node_modules/react/index.js".

(** A crawl that meets [vue] before [react]. *)
Definition sortedCrawl : list Edge := [edge "vue" main; edge "react" main].

Definition sortedResult : ScanResult.t :=
  {| ScanResult.deps :=
       [ ("react", reactPath);
         ("vue", "/project/node_modules/vue/dist/vue.runtime.esm-bundler.js") ];
     ScanResult.missing := [] |}.

Definition sortedEvents : list Event :=
  [ Build "/project/index.html";
    ResolveId "vue" (Some main);
    ResolveId "react" (Some main) ].

(** A crawl that meets two packages whose names are array indices. *)
Definition numericCrawl : list Edge := [edge "100" main; edge "20" main].

Definition numericResult : ScanResult.t :=
  {| ScanResult.deps :=
       [ ("20", "/project/node_modules/20/index.js");
         ("100", "/project/node_modules/100/index.js") ];
     ScanResult.missing := [] |}.

Definition numericEvents : list Event :=
  [ Build "/project/index.html";
    ResolveId "100" (Some main);
    ResolveId "20" (Some main) ].

Definition emptyResult : ScanResult.t :=
  {| ScanResult.deps := []; ScanResult.missing := [] |}.

Definition buttonPath : string := "/project/node_modules/ui-kit/Button.vue".
Definition clientPath : string :=
  "/project/node_modules/vite/dist/client/client.mjs".
Definition remoteUrl : string := "https://cdn.example.com/x.js".


End Example.

(** A project whose resolver also resolves the files of the project
    themselves, as the resolver of the dev server does, and a package that
    is linked from outside [node_modules]. *)
Module Demo.

Definition linkedPath : string := "/workspace/my-lib/src/index.ts".

Definition resolver (id : string) (importer : option string) : option string :=
  if String.eqb id "my-lib" then Some linkedPath
  else match ExampleHost.lookupFile Example.files id with
       | Some _ => Some id
       | None => Example.resolver id importer
       end.

Definition host : Host :=
  ExampleHost.make resolver Example.files ["/project/index.html"].

Definition entry : string := "/project/index.html".

(** The edge of the entry point, which has no importer. *)
Definition entryArgs : OnResolveArgs := Example.argsOf entry "".

Definition entryResult : OnResolveResult :=
  {| resolvedPath := entry; external := false; namespace := Some "html" |}.

Definition crawl : list Edge := [Example.edge entry ""].

(** The state after the crawl of the entry. *)
Definition loaded : State :=
  default initialState
    (crawlEdges host Example.config Example.scanEntries
       (launch Example.scanEntries) crawl).

Definition inlineKey : string := "/project/index.html?id=0".

Definition inlineScript : OnLoadResult :=
  {| loader := "js"; contents := "console.log(1)"; htmlTypeLoader := Some "js" |}.




Definition dataUrl : string := "data:text/javascript,export default 1".

(** An object whose keys were created in an order that is not sorted. *)
Definition unordered : JsObject string :=
  [ ("vue", "/project/node_modules/vue/dist/vue.runtime.esm-bundler.js");
    ("react", Example.reactPath) ].

End Demo.

(* ================================================================== *)
(** * Properties *)
(* ================================================================== *)

(** ** Facts about plain objects *)
Section ObjFacts.
Context {V : Type}.
Implicit Types (o : JsObject V) (k : string) (v : V).

Lemma getOwn_None o k : getOwn o k = None <-> ~ In k (keys o).
Proof.
  unfold keys. induction o as [|[k' v'] o IH]; simpl; [tauto|].
  destruct (String.eqb_spec k k') as [->|Hne].
  - split; [discriminate|]. intros Hn. exfalso. apply Hn. now left.
  - rewrite IH. split; [intros Hn [He|Hi]; [congruence|tauto]|tauto].
Qed.

Lemma getOwn_Some_In o k v : getOwn o k = Some v -> In (k, v) o.
Proof.
  induction o as [|[k' v'] o IH]; simpl; [discriminate|].
  destruct (String.eqb_spec k k') as [->|Hne].
  - intros [= ->]. now left.
  - intros Hg. right. auto.
Qed.

Lemma In_keys o k v : In (k, v) o -> In k (keys o).
Proof. intros Hi. unfold keys. apply in_map_iff. now exists (k, v). Qed.

Lemma In_getOwn o k v : List.NoDup (keys o) -> In (k, v) o -> getOwn o k = Some v.
Proof.
  induction o as [|[k' v'] o IH]; simpl; [tauto|].
  intros Hnd [He|Hi].
  - inversion He; subst. now rewrite String.eqb_refl.
  - inversion Hnd as [|? ? Hn Hnd']; subst.
    destruct (String.eqb_spec k k') as [->|Hne]; [|auto].
    exfalso. apply Hn. eapply In_keys; eauto.
Qed.

Lemma keys_update o k v : keys (update k v o) = keys o.
Proof.
  unfold keys. induction o as [|[k' v'] o IH]; simpl; [reflexivity|].
  destruct (String.eqb k k'); simpl; [reflexivity|]. now f_equal.
Qed.

Lemma getOwn_update o k v k' :
  In k (keys o) ->
  getOwn (update k v o) k' = if String.eqb k' k then Some v else getOwn o k'.
Proof.
  unfold keys. induction o as [|[k0 v0] o IH]; simpl; [tauto|].
  intros Hin.
  destruct (String.eqb_spec k k0) as [->|Hne]; simpl.
  - destruct (String.eqb_spec k' k0); reflexivity.
  - destruct Hin as [He|Hi]; [congruence|].
    rewrite (IH Hi).
    destruct (String.eqb_spec k' k0) as [->|]; [|reflexivity].
    destruct (String.eqb_spec k0 k); [congruence|reflexivity].
Qed.

Lemma insertIndex_perm n k v o :
  Permutation (insertIndex n k v o) ((k, v) :: o).
Proof.
  induction o as [|[k' v'] o IH]; simpl; [reflexivity|].
  destruct (arrayIndex k') as [n'|]; [|reflexivity].
  destruct (n' <? n)%N; [|reflexivity].
  rewrite IH. apply perm_swap.
Qed.

Lemma getOwn_insertIndex n k v o k' :
  ~ In k (keys o) ->
  getOwn (insertIndex n k v o) k' =
  if String.eqb k' k then Some v else getOwn o k'.
Proof.
  unfold keys. induction o as [|[k0 v0] o IH]; simpl; [reflexivity|].
  intros Hn.
  destruct (arrayIndex k0) as [n'|]; [|reflexivity].
  destruct (n' <? n)%N; [|reflexivity].
  simpl. rewrite IH by tauto.
  destruct (String.eqb_spec k' k0) as [->|]; [|reflexivity].
  destruct (String.eqb_spec k0 k) as [->|]; [|reflexivity].
  exfalso. apply Hn. now left.
Qed.

Lemma getOwn_app o k v k' :
  ~ In k (keys o) ->
  getOwn (o ++ [(k, v)])%list k' = if String.eqb k' k then Some v else getOwn o k'.
Proof.
  unfold keys. induction o as [|[k0 v0] o IH]; simpl; [reflexivity|].
  intros Hn. rewrite IH by tauto.
  destruct (String.eqb_spec k' k0) as [->|]; [|reflexivity].
  destruct (String.eqb_spec k0 k) as [->|]; [|reflexivity].
  exfalso. apply Hn. now left.
Qed.

(** Reading a property after an assignment. *)
Lemma getOwn_set o k v k' :
  getOwn (Js.set k v o) k' = if String.eqb k' k then Some v else getOwn o k'.
Proof.
  unfold Js.set. destruct (getOwn o k) as [v0|] eqn:Hg.
  - apply getOwn_update. eapply In_keys, getOwn_Some_In; eauto.
  - apply getOwn_None in Hg.
    destruct (arrayIndex k); [now apply getOwn_insertIndex|now apply getOwn_app].
Qed.

Lemma getOwn_set_eq o k v : getOwn (Js.set k v o) k = Some v.
Proof. now rewrite getOwn_set, String.eqb_refl. Qed.

Lemma getOwn_set_ne o k v k' : k' <> k -> getOwn (Js.set k v o) k' = getOwn o k'.
Proof.
  intros Hne. rewrite getOwn_set.
  destruct (String.eqb_spec k' k); [congruence|reflexivity].
Qed.

(** The keys after an assignment. *)
Lemma In_keys_set o k v k' :
  In k' (keys (Js.set k v o)) <-> k' = k \/ In k' (keys o).
Proof.
  destruct (getOwn (Js.set k v o) k') eqn:Hs.
  - split; [|intros _; eapply In_keys, getOwn_Some_In; eauto].
    intros _. rewrite getOwn_set in Hs.
    destruct (String.eqb_spec k' k); [now left|right].
    eapply In_keys, getOwn_Some_In; eauto.
  - pose proof Hs as Hs'. apply getOwn_None in Hs'. rewrite getOwn_set in Hs.
    destruct (String.eqb_spec k' k); [discriminate|].
    apply getOwn_None in Hs. tauto.
Qed.

(** A new key makes the object one property larger. *)
Lemma set_new_perm o k v :
  ~ In k (keys o) -> Permutation (Js.set k v o) ((k, v) :: o).
Proof.
  intros Hn. unfold Js.set. apply getOwn_None in Hn. rewrite Hn.
  destruct (arrayIndex k).
  - apply insertIndex_perm.
  - symmetry. apply Permutation_cons_append.
Qed.

Lemma set_NoDup o k v : List.NoDup (keys o) -> List.NoDup (keys (Js.set k v o)).
Proof.
  intros Hnd. destruct (getOwn o k) as [v0|] eqn:Hg.
  - unfold Js.set. rewrite Hg, keys_update. exact Hnd.
  - apply getOwn_None in Hg.
    eapply Permutation_NoDup.
    + symmetry. unfold keys. apply Permutation_map. now apply set_new_perm.
    + simpl. now constructor.
Qed.

Lemma In_update o k v kv : In kv (update k v o) -> kv = (k, v) \/ In kv o.
Proof.
  induction o as [|[k0 v0] o IH]; simpl; [tauto|].
  destruct (String.eqb_spec k k0) as [->|Hne]; simpl; intuition.
Qed.

Lemma In_set o k v kv : In kv (Js.set k v o) -> kv = (k, v) \/ In kv o.
Proof.
  unfold Js.set. destruct (getOwn o k) as [v0|] eqn:Hg.
  - apply In_update.
  - destruct (arrayIndex k) as [n|].
    + intros Hi. eapply Permutation_in in Hi; [|apply insertIndex_perm].
      destruct Hi; auto.
    + rewrite in_app_iff. simpl. intuition.
Qed.

Lemma filter_insertIndex_named n k v o :
  isArrayIndex k = true ->
  List.filter named (insertIndex n k v o) = List.filter named o.
Proof.
  intros Hk.
  assert (Hnk : named (k, v) = false) by (unfold named; simpl; now rewrite Hk).
  induction o as [|[k' v'] o IH]; simpl.
  - now rewrite Hnk.
  - destruct (arrayIndex k') as [n'|] eqn:Hk'.
    + destruct (n' <? n)%N; simpl.
      * now rewrite IH.
      * now rewrite Hnk.
    + simpl. now rewrite Hnk.
Qed.

(** The keys that are not array indices keep the order of their creation. *)
Lemma filter_set_named o k v :
  ~ In k (keys o) ->
  List.filter named (Js.set k v o) =
  (List.filter named o ++ (if isArrayIndex k then [] else [(k, v)]))%list.
Proof.
  intros Hn. unfold Js.set. apply getOwn_None in Hn. rewrite Hn.
  destruct (arrayIndex k) as [n|] eqn:Hk.
  - assert (Hi : isArrayIndex k = true) by (unfold isArrayIndex; now rewrite Hk).
    rewrite Hi, filter_insertIndex_named, app_nil_r; auto.
  - assert (Hi : isArrayIndex k = false) by (unfold isArrayIndex; now rewrite Hk).
    rewrite Hi, List.filter_app. simpl. unfold named at 2. simpl. now rewrite Hi.
Qed.

Lemma Enumerated_app_named ks k :
  Enumerated ks -> isArrayIndex k = false -> Enumerated (ks ++ [k])%list.
Proof.
  induction 1 as [ks Hall|k0 ks Hk0 Hle He IH]; intros Hk.
  - apply Enumerated_named. apply List.Forall_app. split; [exact Hall|]. now constructor.
  - simpl. apply Enumerated_index; [exact Hk0| |auto].
    apply List.Forall_app. split; [exact Hle|]. constructor; [|constructor]. congruence.
Qed.

Lemma Enumerated_insertIndex n k v o :
  arrayIndex k = Some n ->
  Enumerated (keys o) -> Enumerated (keys (insertIndex n k v o)).
Proof.
  intros Hk. unfold keys.
  assert (Hki : isArrayIndex k = true) by (unfold isArrayIndex; now rewrite Hk).
  induction o as [|[k' v'] o IH]; simpl; intros He.
  - apply Enumerated_index; [exact Hki|constructor|apply Enumerated_named; constructor].
  - destruct (arrayIndex k') as [n'|] eqn:Hk'.
    + assert (Hk'i : isArrayIndex k' = true) by (unfold isArrayIndex; now rewrite Hk').
      inversion He as [ks Hall|k0 ks Hk0 Hle He']; subst.
      { inversion Hall; subst. congruence. }
      destruct (n' <? n)%N eqn:Hlt; simpl.
      * apply Enumerated_index; [exact Hk'i| |auto].
        assert (Hperm : Permutation (map fst (insertIndex n k v o)) (k :: map fst o)).
        { change (k :: map fst o) with (map fst ((k, v) :: o)).
          apply Permutation_map, insertIndex_perm. }
        eapply Permutation_Forall; [symmetry; exact Hperm|].
        constructor; [|exact Hle].
        intros _. unfold indexLe. rewrite Hk', Hk. apply N.ltb_lt in Hlt. lia.
      * apply Enumerated_index; [exact Hki| |exact He].
        apply N.ltb_ge in Hlt.
        constructor.
        { intros _. unfold indexLe. now rewrite Hk, Hk'. }
        eapply List.Forall_impl; [|exact Hle]. simpl. intros a Ha Hai.
        specialize (Ha Hai). unfold indexLe in *. rewrite Hk' in Ha. rewrite Hk.
        destruct (arrayIndex a); [lia|exact Ha].
    + apply Enumerated_index; [exact Hki| |exact He].
      inversion He as [ks Hall|k0 ks Hk0 Hle He']; subst.
      * eapply List.Forall_impl; [|exact Hall]. simpl. intros a Ha Hai. congruence.
      * unfold isArrayIndex in Hk0. now rewrite Hk' in Hk0.
Qed.

Lemma set_Enumerated o k v :
  Enumerated (keys o) -> Enumerated (keys (Js.set k v o)).
Proof.
  intros He. unfold Js.set. destruct (getOwn o k) as [v0|] eqn:Hg.
  - now rewrite keys_update.
  - destruct (arrayIndex k) as [n|] eqn:Hk.
    + now apply Enumerated_insertIndex.
    + unfold keys. rewrite map_app. simpl. apply Enumerated_app_named; [exact He|].
      unfold isArrayIndex. now rewrite Hk.
Qed.


Lemma assign_perm (l : list (string * V)) : forall acc : JsObject V,
  List.NoDup (keys acc ++ keys l) -> Permutation (assign acc l) (acc ++ l).
Proof.
  unfold keys. induction l as [|[k v] l IH]; intros acc Hnd; simpl.
  - now rewrite app_nil_r.
  - assert (Hk : ~ In k (keys acc)).
    { intros Hin. apply NoDup_remove_2 in Hnd. apply Hnd.
      apply in_or_app. now left. }
    assert (Hp : Permutation (Js.set k v acc) ((k, v) :: acc))
      by now apply set_new_perm.
    fold (assign (Js.set k v acc) l). rewrite IH.
    + rewrite Hp. simpl. apply Permutation_middle.
    + eapply Permutation_NoDup; [|exact Hnd].
      simpl. rewrite (Permutation_map fst Hp). simpl.
      symmetry. apply Permutation_middle.
Qed.

Lemma assign_named (l : list (string * V)) : forall acc : JsObject V,
  List.NoDup (keys acc ++ keys l) ->
  List.filter named (assign acc l) = (List.filter named acc ++ List.filter named l)%list.
Proof.
  unfold keys. induction l as [|[k v] l IH]; intros acc Hnd; simpl.
  - now rewrite app_nil_r.
  - assert (Hk : ~ In k (keys acc)).
    { intros Hin. apply NoDup_remove_2 in Hnd. apply Hnd.
      apply in_or_app. now left. }
    assert (Hp : Permutation (Js.set k v acc) ((k, v) :: acc))
      by now apply set_new_perm.
    fold (assign (Js.set k v acc) l). rewrite IH.
    + rewrite filter_set_named by exact Hk.
      change (named (k, v)) with (negb (isArrayIndex k)).
      destruct (isArrayIndex k); simpl.
      * now rewrite app_nil_r.
      * now rewrite <- app_assoc.
    + eapply Permutation_NoDup; [|exact Hnd].
      simpl. rewrite (Permutation_map fst Hp). simpl.
      symmetry. apply Permutation_middle.
Qed.

Lemma assign_Enumerated (l : list (string * V)) : forall acc : JsObject V,
  Enumerated (keys acc) -> Enumerated (keys (assign acc l)).
Proof.
  induction l as [|[k v] l IH]; intros acc He; simpl; [exact He|].
  apply IH. now apply set_Enumerated.
Qed.

Lemma assign_NoDup (l : list (string * V)) : forall acc : JsObject V,
  List.NoDup (keys acc) -> List.NoDup (keys (assign acc l)).
Proof.
  induction l as [|[k v] l IH]; intros acc He; simpl; [exact He|].
  apply IH. now apply set_NoDup.
Qed.

End ObjFacts.

(** ** Facts about [sort] *)
Section SortFacts.
Context {A : Type} (cmp : A -> A -> Z).

Lemma sortInsert_perm x l : Permutation (sortInsert cmp x l) (x :: l).
Proof.
  induction l as [|y l IH]; simpl; [reflexivity|].
  destruct (cmp x y <=? 0)%Z; [reflexivity|].
  rewrite IH. apply perm_swap.
Qed.

Lemma sort_perm l : Permutation (Js.sort cmp l) l.
Proof.
  induction l as [|x l IH]; simpl; [reflexivity|].
  rewrite sortInsert_perm. now constructor.
Qed.

Hypothesis total : forall a b, before cmp a b \/ before cmp b a.
Hypothesis trans : forall a b c, before cmp a b -> before cmp b c -> before cmp a c.

Lemma sortInsert_sorted x l :
  StronglySorted (before cmp) l -> StronglySorted (before cmp) (sortInsert cmp x l).
Proof.
  induction l as [|y l IH]; simpl; intros Hs.
  - constructor; constructor.
  - inversion Hs as [|? ? Hs' Hall]; subst.
    destruct (cmp x y <=? 0)%Z eqn:Hc.
    + apply Z.leb_le in Hc. constructor; [exact Hs|].
      constructor; [exact Hc|].
      eapply List.Forall_impl; [|exact Hall]. intros a Ha. eapply trans; eauto.
    + apply Z.leb_gt in Hc. constructor; [auto|].
      eapply Permutation_Forall; [symmetry; apply sortInsert_perm|].
      constructor; [|exact Hall].
      destruct (total y x) as [Hyx|Hxy]; [exact Hyx|].
      unfold before in *. lia.
Qed.

Lemma sort_sorted l : StronglySorted (before cmp) (Js.sort cmp l).
Proof.
  induction l as [|x l IH]; simpl; [constructor|]. now apply sortInsert_sorted.
Qed.

End SortFacts.

(** Two sorted arrangements of the same elements are equal when no two
    different elements tie. *)
Lemma sorted_unique {A : Type} (R : A -> A -> Prop) (l1 : list A) :
  forall l2,
  StronglySorted R l1 -> StronglySorted R l2 -> Permutation l1 l2 ->
  (forall a b, In a l1 -> In b l1 -> R a b -> R b a -> a = b) ->
  l1 = l2.
Proof.
  induction l1 as [|x l1 IH]; intros l2 H1 H2 Hp Hanti.
  - apply Permutation_nil in Hp. now subst.
  - destruct l2 as [|y l2].
    { symmetry in Hp. apply Permutation_nil in Hp. discriminate. }
    inversion H1 as [|? ? H1' Hall1]; subst.
    inversion H2 as [|? ? H2' Hall2]; subst.
    assert (Hxy : x = y).
    { assert (Hy : In y (x :: l1)).
      { eapply Permutation_in; [symmetry; exact Hp|now left]. }
      assert (Hx : In x (y :: l2)).
      { eapply Permutation_in; [exact Hp|now left]. }
      destruct Hy as [Hy|Hy]; [exact Hy|].
      destruct Hx as [Hx|Hx]; [now symmetry|].
      apply Hanti; [now left|now right| |].
      - rewrite List.Forall_forall in Hall1. now apply Hall1.
      - rewrite List.Forall_forall in Hall2. now apply Hall2. }
    subst y. f_equal. apply IH; auto.
    + eapply Permutation_cons_inv; eauto.
    + intros a b Ha Hb. apply Hanti; now right.
Qed.

Lemma StronglySorted_filter {A : Type} (R : A -> A -> Prop) (f : A -> bool) l :
  StronglySorted R l -> StronglySorted R (List.filter f l).
Proof.
  induction 1 as [|x l Hs IH Hall]; simpl; [constructor|].
  destruct (f x); [|exact IH].
  constructor; [exact IH|].
  rewrite List.Forall_forall in *. intros a Ha.
  apply List.filter_In in Ha. apply Hall. tauto.
Qed.

Lemma StronglySorted_map {A B : Type} (R : B -> B -> Prop) (f : A -> B) l :
  StronglySorted (fun a b => R (f a) (f b)) l -> StronglySorted R (map f l).
Proof.
  induction 1 as [|x l Hs IH Hall]; simpl; [constructor|].
  constructor; [exact IH|].
  rewrite List.Forall_forall in *. intros b Hb.
  apply in_map_iff in Hb. destruct Hb as (a & <- & Ha). now apply Hall.
Qed.

(** ** Facts about the matcher *)
Section RegexFacts.

Context {R : Type} (icase : bool).




End RegexFacts.





(** ** Facts about the hooks *)
Section HookFacts.
Context (H : Host) (config : ResolvedConfig) (pluginEntries : list string).

Lemma sameRecords_refl st : sameRecords st st.
Proof. now repeat split. Qed.

Lemma sameRecords_trans st1 st2 st3 :
  sameRecords st1 st2 -> sameRecords st2 st3 -> sameRecords st1 st3.
Proof. unfold sameRecords. intuition congruence. Qed.

Lemma resolve_begin_records st id imp o r st' :
  resolve_begin H st id imp o = (r, st') -> sameRecords st st' /\ quiet st st'.
Proof.
  unfold resolve_begin. destruct (seen st !! resolveKey H id imp).
  - intros [= <- <-]. split; [apply sameRecords_refl|now intros p].
  - intros [= <- <-]. split; [now repeat split|].
    intros p. simpl. rewrite in_app_iff. simpl. intros [Hi|[Hi|[]]]; [exact Hi|discriminate].
Qed.

Lemma resolve_records st id imp o r st' :
  resolve H st id imp o = (r, st') -> sameRecords st st' /\ quiet st st'.
Proof.
  unfold resolve. destruct (resolve_begin H st id imp o) as [[res|key res] st1] eqn:Hb.
  - intros [= <- <-]. eapply resolve_begin_records; eauto.
  - unfold resolve_end. intros [= <- <-].
    apply resolve_begin_records in Hb. destruct Hb as [Hs Hq].
    split; [|exact Hq]. exact Hs.
Qed.

(** A completed call leaves its answer in the cache, and a call whose key is
    in the cache answers from it without a call of the container. *)
Lemma resolve_caches st id imp o r st' :
  resolve H st id imp o = (r, st') -> seen st' !! resolveKey H id imp = Some r.
Proof.
  unfold resolve, resolve_begin.
  destruct (seen st !! resolveKey H id imp) as [res|] eqn:Hs.
  - now intros [= <- <-].
  - unfold resolve_end. intros [= <- <-]. simpl. apply lookup_insert_eq.
Qed.

Lemma resolve_cached st id imp o r :
  seen st !! resolveKey H id imp = Some r -> resolve H st id imp o = (r, st).
Proof. unfold resolve, resolve_begin. now intros ->. Qed.

Lemma resolve_again st id imp o o' r st' :
  resolve H st id imp o = (r, st') -> resolve H st' id imp o' = (r, st').
Proof. intros Hr. apply resolve_cached. eapply resolve_caches; eauto. Qed.


Lemma quiet_refl st : quiet st st.
Proof. now intros p. Qed.

Lemma quiet_trans st1 st2 st3 : quiet st1 st2 -> quiet st2 st3 -> quiet st1 st3.
Proof. unfold quiet. auto. Qed.

Lemma onResolve_html_records st args res st' :
  onResolve_html H config st args = (res, st') ->
  sameRecords st st' /\ quiet st st'.
Proof.
  unfold onResolve_html.
  destruct (resolve H st (path args) (Some (importer args)) None)
    as [resolved st1] eqn:Hr.
  apply resolve_records in Hr.
  destruct resolved as [r|]; [|now intros [= <- <-]].
  destruct (negb (truthy r)); [now intros [= <- <-]|].
  destruct (includes r "node_modules" && isOptimizable H r (optimizeDeps config));
    now intros [= <- <-].
Qed.

Lemma onResolve_catchAll_records st args res st' :
  onResolve_catchAll H pluginEntries st args = (res, st') ->
  sameRecords st st' /\ quiet st st' /\ is_Some res.
Proof.
  unfold onResolve_catchAll.
  destruct (resolve H st (path args) (Some (importer args)) (depScanOptions args))
    as [resolved st1] eqn:Hr.
  apply resolve_records in Hr. destruct Hr as [Hs Hq].
  destruct (truthyOpt resolved).
  - destruct (shouldExternalizeDep H (default "" resolved) (path args)
              || negb (isScannable H (default "" resolved)));
      intros [= <- <-]; eauto.
  - intros [= <- <-]; eauto.
Qed.

Lemma Change_same_l st0 st args st' :
  sameRecords st0 st -> Change H config st args st' -> Change H config st0 args st'.
Proof.
  intros (Hd & Hm & _) [Hd' Hm'|r Ht He Hg Hd' Hm'|He Hg Hd' Hm'].
  - apply Unchanged; congruence.
  - eapply Recorded; eauto; congruence.
  - apply Missed; congruence.
Qed.

Lemma Change_same_r st args st' st'' :
  Change H config st args st' -> sameRecords st' st'' -> Change H config st args st''.
Proof.
  intros [Hd' Hm'|r Ht He Hg Hd' Hm'|He Hg Hd' Hm'] (Hd & Hm & _).
  - apply Unchanged; congruence.
  - eapply Recorded; eauto; congruence.
  - apply Missed; congruence.
Qed.

Lemma onResolve_bare_change st args res st' :
  onResolve_bare H config pluginEntries st args = (res, st') ->
  Change H config st args st' /\ scripts st' = scripts st /\ quiet st st'.
Proof.
  unfold onResolve_bare.
  destruct (moduleListContains H (pluginExclude config) (path args)) eqn:He.
  { intros [= <- <-]. split; [now apply Unchanged|split; [reflexivity|apply quiet_refl]]. }
  destruct (truthyGet (depImports st) (path args)) eqn:Hg.
  { intros [= <- <-]. split; [now apply Unchanged|split; [reflexivity|apply quiet_refl]]. }
  destruct (resolve H st (path args) (Some (importer args)) (depScanOptions args))
    as [resolved st1] eqn:Hr.
  apply resolve_records in Hr. destruct Hr as [(Hd & Hm & Hsc) Hq].
  destruct (truthyOpt resolved) eqn:Ht.
  - destruct (shouldExternalizeDep H (default "" resolved) (path args)).
    { intros [= <- <-]. split; [now apply Unchanged|now split]. }
    destruct (includes (default "" resolved) "node_modules"
              || includesOpt (pluginInclude config) (path args)).
    + destruct (isOptimizable H (default "" resolved) (optimizeDeps config));
        intros [= <- <-].
      * split; [|now split].
        apply (Recorded H config _ _ _ (default "" resolved)); simpl; try congruence.
        destruct resolved; [exact Ht|discriminate].
      * split; [now apply Unchanged|now split].
    + destruct (isScannable H (default "" resolved)); intros [= <- <-];
        (split; [now apply Unchanged|now split]).
  - intros [= <- <-]. split; [|now split].
    apply Missed; simpl; congruence.
Qed.


#[local] Hint Resolve sameRecords_refl quiet_refl : records.

Lemma fallbackHooks_records st args res st' :
  runResolveHooks (fallbackHooks H pluginEntries) st args = (res, st') ->
  sameRecords st st' /\ quiet st st' /\ is_Some res.
Proof.
  unfold fallbackHooks. cbn [runResolveHooks].
  destruct (test false cssJsonWasmRE (path args)); [returns_same|].
  destruct (knownAssetTypesRE H (path args)); [returns_same|].
  destruct (SPECIAL_QUERY_RE H (path args)); [returns_same|].
  destruct (onResolve_catchAll H pluginEntries st args) as [[r|] st4] eqn:Hc;
    apply onResolve_catchAll_records in Hc; destruct Hc as (Hs & Hq & Hsome).
  - now intros [= <- <-].
  - destruct Hsome as [? [=]].
Qed.

(** The hooks from the bare-import hook on. *)
Lemma bareHooks_change st args res st' :
  runResolveHooks
    ((test false bareImportRE, onResolve_bare H config pluginEntries)
     :: fallbackHooks H pluginEntries) st args = (res, st') ->
  Change H config st args st'
  /\ (test false bareImportRE (path args) = true
       /\ moduleListContains H (pluginExclude config) (path args) = false
      \/ (depImports st' = depImports st /\ missing st' = missing st))
  /\ scripts st' = scripts st /\ quiet st st' /\ is_Some res.
Proof.
  cbn [runResolveHooks].
  destruct (test false bareImportRE (path args)) eqn:F5.
  - destruct (onResolve_bare H config pluginEntries st args) as [[r|] st2] eqn:Hb;
      apply onResolve_bare_change in Hb; destruct Hb as (Hc & Hsc & Hq).
    + intros [= <- <-]. split; [exact Hc|].
      split; [|split; [exact Hsc|split; [exact Hq|eauto]]].
      destruct Hc as [Hd Hm|r0 ? He ? ? ?|He ? ? ?]; [now right|now left|now left].
    + intros Ht. apply fallbackHooks_records in Ht. destruct Ht as (Hs3 & Hq3 & Hsome).
      split; [eapply Change_same_r; eauto|].
      split.
      { destruct Hc as [Hd Hm|r0 ? He ? ? ?|He ? ? ?]; [right|now left|now left].
        destruct Hs3 as (? & ? & ?). split; congruence. }
      split; [destruct Hs3 as (? & ? & ?); congruence|].
      split; [eapply quiet_trans; eauto|exact Hsome].
  - intros Ht. apply fallbackHooks_records in Ht. destruct Ht as ((Hd & Hm & Hsc) & Hq3 & Hsome).
    split; [now apply Unchanged|]. split; [now right|].
    split; [exact Hsc|]. split; [exact Hq3|exact Hsome].
Qed.

Lemma onResolve_change st args res st' :
  onResolve H config pluginEntries st args = (res, st') ->
  Change H config st args st'
  /\ (Recordable H config (path args)
      \/ (depImports st' = depImports st /\ missing st' = missing st))
  /\ scripts st' = scripts st /\ quiet st st' /\ is_Some res.
Proof.
  unfold onResolve, resolveHooks.
  assert (Hsame : forall r, (Some r, st) = (res, st') ->
    Change H config st args st'
    /\ (Recordable H config (path args)
        \/ (depImports st' = depImports st /\ missing st' = missing st))
    /\ scripts st' = scripts st /\ quiet st st' /\ is_Some res).
  { intros r [= <- <-]. split; [now apply Unchanged|].
    split; [now right|]. split; [reflexivity|]. split; [apply quiet_refl|eauto]. }
  cbn [runResolveHooks].
  destruct (test false externalRE (path args)) eqn:F1; [apply Hsame|].
  destruct (dataUrlRE H (path args)) eqn:F2; [apply Hsame|].
  destruct (test false virtualModuleRE (path args)) eqn:F3; [apply Hsame|].
  clear Hsame.
  assert (Hrest : forall st1, sameRecords st st1 -> quiet st st1 ->
    runResolveHooks
      ((test false bareImportRE, onResolve_bare H config pluginEntries)
       :: fallbackHooks H pluginEntries) st1 args = (res, st') ->
    Change H config st args st'
    /\ (Recordable H config (path args)
        \/ (depImports st' = depImports st /\ missing st' = missing st))
    /\ scripts st' = scripts st /\ quiet st st' /\ is_Some res).
  { intros st1 Hs1 Hq1 Hrun. apply bareHooks_change in Hrun.
    destruct Hrun as (Hc & Hor & Hsc & Hq & Hsome).
    split; [eapply Change_same_l; eauto|].
    split.
    { destruct Hor as [[F5 He]|[Hd Hm]]; [left; now repeat split|right].
      destruct Hs1 as (? & ? & ?). split; congruence. }
    split; [destruct Hs1 as (? & ? & ?); congruence|].
    split; [eapply quiet_trans; eauto|exact Hsome]. }
  destruct (test false htmlTypesRE (path args)) eqn:F4.
  - destruct (onResolve_html H config st args) as [[r|] st1] eqn:Hh;
      apply onResolve_html_records in Hh; destruct Hh as [Hs Hq].
    + intros [= <- <-]. destruct Hs as (Hd & Hm & Hsc).
      split; [now apply Unchanged|]. split; [now right|]. split; [exact Hsc|].
      split; [exact Hq|eauto].
    + now apply Hrest.
  - apply Hrest; [apply sameRecords_refl|apply quiet_refl].
Qed.

(** The load hooks write neither [deps] nor [missing]. *)
Lemma doTransformGlobImport_deps st contents id loader r st' :
  doTransformGlobImport H config st contents id loader = Some (r, st') ->
  sameDeps st st'.
Proof.
  unfold doTransformGlobImport.
  destruct (if negb (String.eqb loader "js") then transform H contents loader
            else Some contents) as [t|]; simpl; [|discriminate].
  destruct (transformGlobImport H (seen st) t id (root config)) as [result seen'].
  intros [= <- <-]. now split.
Qed.

Lemma registerScript_deps st build path key contents loader st' :
  registerScript H config st build path key contents loader = Some st' ->
  sameDeps st st'.
Proof.
  unfold registerScript. destruct (includes contents "import.meta.glob").
  - destruct (doTransformGlobImport H config st contents path loader)
      as [[t st1]|] eqn:Hd; simpl; [|discriminate].
    apply doTransformGlobImport_deps in Hd. intros [= <-]. exact Hd.
  - intros [= <-]. now split.
Qed.

Lemma scriptBlock_deps build path js n st m js' n' st' :
  scriptBlock H config build path (js, n, st) m = Some (js', n', st') ->
  sameDeps st st'.
Proof.
  unfold scriptBlock.
  destruct (skippedType _); [intros [= <- <- <-]; now split|].
  destruct (matchOnce true srcRE _); [intros [= <- <- <-]; now split|].
  destruct (truthy _); [|intros [= <- <- <-]; now split].
  destruct (registerScript _ _ _ _ _ _ _ _) as [st1|] eqn:Hr; simpl; [|discriminate].
  apply registerScript_deps in Hr.
  destruct (_ && _); intros [= <- <- <-]; exact Hr.
Qed.

Lemma scriptBlocks_deps build path ms : forall js n st js' n' st',
  scriptBlocks H config build path (js, n, st) ms = Some (js', n', st') ->
  sameDeps st st'.
Proof.
  induction ms as [|m ms IH]; intros js n st js' n' st'; cbn [scriptBlocks].
  - intros [= <- <- <-]. now split.
  - destruct (scriptBlock H config build path (js, n, st) m)
      as [[[js1 n1] st1]|] eqn:Hb; cbn [mbind option_bind]; [|discriminate].
    apply scriptBlock_deps in Hb. intros Hs. apply IH in Hs.
    destruct Hb, Hs. split; congruence.
Qed.

Lemma onLoad_html_deps st build p r st' :
  onLoad_html H config st build p = Some (r, st') -> sameDeps st st'.
Proof.
  unfold onLoad_html.
  destruct (readFileSync H p) as [raw|]; simpl; [|discriminate].
  destruct (execAll true _ _) as [ms|]; simpl; [|discriminate].
  destruct (scriptBlocks _ _ _ _ _ _) as [[[js n] st1]|] eqn:Hs; simpl; [|discriminate].
  apply scriptBlocks_deps in Hs. intros [= <- <-]. exact Hs.
Qed.

Lemma onLoad_js_deps st id r st' :
  onLoad_js H config st id = Some (r, st') -> sameDeps st st'.
Proof.
  unfold onLoad_js.
  destruct (readFileSync H id) as [raw|]; simpl; [|discriminate].
  destruct (includes _ "import.meta.glob").
  - destruct (doTransformGlobImport _ _ _ _ _ _) as [[t st1]|] eqn:Hd; simpl; [|discriminate].
    apply doTransformGlobImport_deps in Hd. intros [= <- <-]. exact Hd.
  - intros [= <- <-]. now split.
Qed.

Lemma onLoad_deps st build p ns r st' :
  onLoad H config st build p ns = Some (r, st') -> sameDeps st st'.
Proof.
  unfold onLoad.
  destruct (if inNamespace ns "script" then scripts st !! (build, p) else None).
  { intros [= <- <-]. now split. }
  destruct (inNamespace ns "html" && test false htmlTypesRE p).
  { destruct (onLoad_html H config st build p) as [[r1 st1]|] eqn:Hl; simpl; [|discriminate].
    apply onLoad_html_deps in Hl. now intros [= <- <-]. }
  destruct (JS_TYPES_RE H p).
  { destruct (onLoad_js H config st p) as [[r1 st1]|] eqn:Hl; simpl; [|discriminate].
    apply onLoad_js_deps in Hl. now intros [= <- <-]. }
  destruct (inNamespace ns "file"); [|discriminate].
  destruct (readFileSync H p); simpl; [|discriminate].
  intros [= <- <-]. now split.
Qed.


(** *** What holds of the records throughout a crawl *)

Lemma launch_records es :
  depImports (launch es) = [] /\ missing (launch es) = []
  /\ seen (launch es) = ∅ /\ scripts (launch es) = ∅.
Proof.
  unfold launch.
  enough (Hgen : forall st,
    let st' := fold_left (fun st entry => emit st (Build entry)) es st in
    depImports st' = depImports st /\ missing st' = missing st
    /\ seen st' = seen st /\ scripts st' = scripts st) by apply Hgen.
  induction es as [|e es IH]; intros st; simpl; [tauto|].
  apply (IH (emit st (Build e))).
Qed.

Lemma launch_inv es : StateInv H config (launch es).
Proof.
  destruct (launch_records es) as (Hd & Hm & _).
  unfold StateInv. rewrite Hd, Hm. repeat split; constructor.
Qed.

Lemma Change_inv st args st' :
  Change H config st args st' ->
  Recordable H config (path args)
  \/ (depImports st' = depImports st /\ missing st' = missing st) ->
  StateInv H config st -> StateInv H config st'.
Proof.
  intros Hc Hor (Hnd & Hdeps & Hmiss).
  assert (Hsame : depImports st' = depImports st -> missing st' = missing st ->
                  StateInv H config st').
  { intros Hd Hm. unfold StateInv. rewrite Hd, Hm. tauto. }
  destruct Hc as [Hd Hm|r Ht He Hg Hd Hm|He Hg Hd Hm]; [auto| |].
  - destruct Hor as [Hrec|[Hd' Hm']]; [|auto].
    unfold StateInv. rewrite Hd, Hm. split; [now apply set_NoDup|split; [|exact Hmiss]].
    apply List.Forall_forall. intros kv Hin. apply In_set in Hin.
    destruct Hin as [->|Hin]; [now split|].
    rewrite List.Forall_forall in Hdeps. now apply Hdeps.
  - destruct Hor as [Hrec|[Hd' Hm']]; [|auto].
    unfold StateInv. rewrite Hd, Hm. split; [exact Hnd|split; [exact Hdeps|]].
    apply List.Forall_forall. intros kv Hin. apply In_set in Hin.
    destruct Hin as [->|Hin]; [exact Hrec|].
    rewrite List.Forall_forall in Hmiss. now apply Hmiss.
Qed.

Lemma sameDeps_inv st st' : sameDeps st st' -> StateInv H config st -> StateInv H config st'.
Proof. intros [Hd Hm]. unfold StateInv. now rewrite Hd, Hm. Qed.

Lemma crawlEdge_inv st e st' :
  crawlEdge H config pluginEntries st e = Some st' -> StateInv H config st -> StateInv H config st'.
Proof.
  unfold crawlEdge.
  destruct (onResolve H config pluginEntries st (edgeArgs e)) as [res st1] eqn:Hr.
  apply onResolve_change in Hr. destruct Hr as (Hc & Hor & _ & _ & _).
  intros Hrun Hinv. pose proof (Change_inv _ _ _ Hc Hor Hinv) as Hinv1.
  assert (Hload : forall p ns,
    snd <$> onLoad H config st1 (edgeBuild e) p ns = Some st' -> StateInv H config st').
  { intros p ns Hl.
    destruct (onLoad H config st1 (edgeBuild e) p ns) as [[r st2]|] eqn:Hl';
      simpl in Hl; [|discriminate].
    injection Hl as <-. apply onLoad_deps in Hl'. eapply sameDeps_inv; eauto. }
  destruct res as [r|]; [|eauto].
  destruct (external r); [|eauto]. now injection Hrun as <-.
Qed.

Lemma crawlEdges_inv crawl : forall st st',
  crawlEdges H config pluginEntries st crawl = Some st' ->
  StateInv H config st -> StateInv H config st'.
Proof.
  induction crawl as [|e crawl IH]; intros st st'; cbn [crawlEdges].
  - now intros [= <-].
  - destruct (crawlEdge H config pluginEntries st e) as [st1|] eqn:He;
      cbn [mbind option_bind]; [|discriminate].
    intros Hrun Hinv. eapply IH; [exact Hrun|]. eapply crawlEdge_inv; eauto.
Qed.


End HookFacts.

Lemma In_assign {V} (l : list (string * V)) : forall acc kv,
  In kv (assign acc l) -> In kv acc \/ In kv l.
Proof.
  induction l as [|[k v] l IH]; intros acc kv; simpl; [tauto|].
  intros Hin. apply IH in Hin. destruct Hin as [Hin|Hin]; [|tauto].
  apply In_set in Hin. simpl in Hin. destruct Hin as [->|Hin]; tauto.
Qed.

Lemma orderedDependencies_keys H o k :
  In k (keys (orderedDependencies H o)) -> In k (keys o).
Proof.
  unfold keys. rewrite !in_map_iff. intros ([k' v] & <- & Hin).
  unfold orderedDependencies, fromEntries in Hin.
  apply (In_assign _ []) in Hin. destruct Hin as [[]|Hin].
  eapply Permutation_in in Hin; [|apply sort_perm].
  now exists (k', v).
Qed.

(** What a completed scan returns, in terms of the state after the crawl. *)
Lemma scanImports_returns H config crawl r evs :
  scanImports H config crawl = (Returns r, evs) ->
  (r = {| ScanResult.deps := []; ScanResult.missing := [] |})
  \/ exists es st,
       crawlEdges H config es (launch es) crawl = Some st
       /\ ScanResult.deps r = orderedDependencies H (depImports st)
       /\ ScanResult.missing r = missing st.
Proof.
  unfold scanImports. destruct (discoverEntries H config) as [e|found]; [discriminate|].
  destruct (scannableEntries H found) as [|e0 es0] eqn:Hes.
  - intros [= <- _]. now left.
  - destruct (crawlEdges H config (e0 :: es0) (launch (e0 :: es0)) crawl)
      as [st|] eqn:Hc; [|discriminate].
    intros [= <- _]. right. exists (e0 :: es0), st. now repeat split.
Qed.

(** No key of the returned [deps] or [missing] comes from anywhere but the
    bare-import hook. *)
Lemma scanImports_recordable H config crawl r evs k :
  scanImports H config crawl = (Returns r, evs) ->
  In k (keys (ScanResult.deps r)) \/ In k (keys (ScanResult.missing r)) ->
  Recordable H config k.
Proof.
  intros Hs Hin. apply scanImports_returns in Hs.
  destruct Hs as [->|(es & st & Hc & Hd & Hm)]; [simpl in Hin; tauto|].
  apply crawlEdges_inv in Hc; [|apply launch_inv].
  destruct Hc as (_ & Hdeps & Hmiss).
  rewrite Hd, Hm in Hin. rewrite List.Forall_forall in Hdeps, Hmiss.
  destruct Hin as [Hin|Hin].
  - apply orderedDependencies_keys in Hin. unfold keys in Hin.
    apply in_map_iff in Hin. destruct Hin as (kv & <- & Hin). now apply Hdeps.
  - unfold keys in Hin.
    apply in_map_iff in Hin. destruct Hin as (kv & <- & Hin). now apply Hmiss.
Qed.

(** C9. When the build input [rollupOptions.input] is used to find the
    entries (no explicit entry patterns, a truthy input) and it is neither a
    string, an array nor an object, [scanImports] throws at once: no crawl
    is launched and nothing is logged. *)
Theorem C9_invalid_build_input (H : Host) (config : ResolvedConfig)
    (crawl : list Edge) :
  truthyPatterns (entries (optimizeDeps config)) = false ->
  rollupInput config = Some (InputOther true) ->
  scanImports H config crawl
  = (Throws (InvalidInput "invalid rollupOptions.input value."), []).
Proof.
  intros Hp Hi. unfold scanImports, discoverEntries. now rewrite Hp, Hi.
Qed.

(** C2. When no entry is left after the filter to existing, scannable
    files, [scanImports] returns [{deps: {}, missing: {}}] without launching
    a crawl, and it warns if and only if neither [optimizeDeps.entries] nor
    [optimizeDeps.include] is configured. *)
Theorem C2_no_entries (H : Host) (config : ResolvedConfig) (crawl : list Edge)
    (found : list string) :
  discoverEntries H config = inr found ->
  scannableEntries H found = [] ->
  exists evs,
    scanImports H config crawl
    = (Returns {| ScanResult.deps := []; ScanResult.missing := [] |}, evs)
    /\ (forall entry, ~ In (Build entry) evs)
    /\ (In (Warn noEntryWarning) evs <->
        truthyPatterns (entries (optimizeDeps config)) = false
        /\ include (optimizeDeps config) = None).
Proof.
  intros Hd Hs. unfold scanImports. rewrite Hd, Hs.
  eexists. split; [reflexivity|].
  destruct (truthyPatterns (entries (optimizeDeps config)));
    destruct (include (optimizeDeps config)) as [l|]; simpl.
  - split; [tauto|]. split; [tauto|]. intros [? ?]. discriminate.
  - split; [tauto|]. split; [tauto|]. intros [? ?]. discriminate.
  - split; [tauto|]. split; [tauto|]. intros [? ?]. discriminate.
  - split; [intros entry [?|[]]; discriminate|]. split; [tauto|]. intros _. now left.
Qed.

(** C7. An import specifier of a remote URL form ([http://], [https://] or
    protocol-relative) is marked external by the resolve hooks, which leave
    the state as it is: the crawl does not follow the edge and reads nothing
    from disk for it; and the specifier is never a key of the [deps] or of
    the [missing] that a scan returns. *)
Theorem C7_remote_url_external (H : Host) (config : ResolvedConfig)
    (url : string) :
  test false externalRE url = true ->
  (forall es st b imp pd,
     let args := {| path := url; importer := imp; pluginData := pd |} in
     onResolve H config es st args = (Some (externalResult url), st)
     /\ crawlEdge H config es st {| edgeBuild := b; edgeArgs := args |} = Some st)
  /\ (forall crawl r evs,
        scanImports H config crawl = (Returns r, evs) ->
        ~ In url (keys (ScanResult.deps r))
        /\ ~ In url (keys (ScanResult.missing r))).
Proof.
  intros Hurl. split.
  - intros es st b imp pd args.
    assert (Hr : onResolve H config es st args = (Some (externalResult url), st)).
    { unfold onResolve, resolveHooks. cbn [runResolveHooks]. subst args. simpl.
      now rewrite Hurl. }
    split; [exact Hr|]. unfold crawlEdge. cbn [edgeArgs]. now rewrite Hr.
  - intros crawl r evs Hs.
    split; intros Hin.
    + assert (Hrec : Recordable H config url)
        by (eapply scanImports_recordable; eauto).
      destruct Hrec as (Hx & _). congruence.
    + assert (Hrec : Recordable H config url)
        by (eapply scanImports_recordable; eauto).
      destruct Hrec as (Hx & _). congruence.
Qed.

(** C10. The exclude list of the plugin is the configured
    [optimizeDeps.exclude] followed by [@vite/client] and [@vite/env]; a
    bare import of one of these two is externalized unless it is itself an
    entry, and it is never a key of the [deps] that a scan returns. The
    hypothesis is the contract of [moduleListContains]: a member of the list
    is contained in it. *)
Theorem C10_vite_client_excluded (H : Host) (config : ResolvedConfig) :
  (forall l id, In id l -> moduleListContains H l id = true) ->
  pluginExclude config
  = (default [] (exclude (optimizeDeps config)) ++ ["@vite/client"; "@vite/env"])%list
  /\ forall id, id = "@vite/client" \/ id = "@vite/env" ->
     (forall es st imp pd,
        exists r,
          onResolve H config es st {| path := id; importer := imp; pluginData := pd |}
          = (Some r, st)
          /\ resolvedPath r = id /\ namespace r = None
          /\ (existsb (String.eqb id) es = false -> external r = true))
     /\ (forall crawl r evs,
           scanImports H config crawl = (Returns r, evs) ->
           ~ In id (keys (ScanResult.deps r))).
Proof.
  intros Hcontains. split; [reflexivity|].
  intros id Hid.
  assert (Hex : moduleListContains H (pluginExclude config) id = true).
  { apply Hcontains. unfold pluginExclude. apply in_or_app. right.
    simpl. destruct Hid as [-> | ->]; tauto. }
  split.
  - intros es st imp pd.
    assert (Hf : test false externalRE id = false
                 /\ test false virtualModuleRE id = false
                 /\ test false htmlTypesRE id = false
                 /\ test false bareImportRE id = true).
    { destruct Hid as [-> | ->]; vm_compute; tauto. }
    destruct Hf as (F1 & F3 & F4 & F5).
    unfold onResolve, resolveHooks. cbn [runResolveHooks path].
    rewrite F1, F3, F4, F5.
    destruct (dataUrlRE H id).
    + exists (externalResult id). now repeat split.
    + unfold onResolve_bare. cbn [path]. rewrite Hex.
      exists (externalUnlessEntry es id). repeat split.
      intros Hn. simpl. now rewrite Hn.
  - intros crawl r evs Hs Hin.
    assert (Hrec : Recordable H config id)
      by (eapply scanImports_recordable; eauto).
    destruct Hrec as (_ & _ & _ & _ & He). congruence.
Qed.

Lemma externalUnlessEntry_external es id :
  existsb (String.eqb id) es = false ->
  externalUnlessEntry es id = externalResult id.
Proof. intros Hn. unfold externalUnlessEntry, externalResult. now rewrite Hn. Qed.


Section BareHook.
Context (H : Host) (config : ResolvedConfig) (es : list string).


(** The bare-import hook on a specifier that resolves to a dependency. *)
Lemma bareHooks_dependency st id imp pd r :
  let args := {| path := id; importer := imp; pluginData := pd |} in
  test false bareImportRE id = true ->
  moduleListContains H (pluginExclude config) id = false ->
  truthyGet (depImports st) id = false ->
  (forall o, fst (resolve H st id (Some imp) o) = Some r) ->
  truthy r = true ->
  shouldExternalizeDep H r id = false ->
  includes r "node_modules" || includesOpt (pluginInclude config) id = true ->
  exists st1,
    sameRecords st st1
    /\ runResolveHooks
         ((test false bareImportRE, onResolve_bare H config es)
          :: fallbackHooks H es) st args
       = (Some (externalUnlessEntry es id),
          if isOptimizable H r (optimizeDeps config) then withDep st1 id r else st1).
Proof.
  intros args F5 He Hg Hres Ht Hs Hnm.
  cbn [runResolveHooks]. subst args. cbn [path]. rewrite F5.
  unfold onResolve_bare. cbn [path importer]. rewrite He, Hg.
  destruct (resolve H st id (Some imp)
              (depScanOptions {| path := id; importer := imp; pluginData := pd |}))
    as [r1 st1] eqn:Hr.
  pose proof (Hres (depScanOptions {| path := id; importer := imp; pluginData := pd |}))
    as Hf. rewrite Hr in Hf. simpl in Hf. subst r1.
  exists st1. split; [apply (resolve_records _ _ _ _ _ _ _ Hr)|].
  cbn [truthyOpt]. rewrite Ht. change (default "" (Some r)) with r.
  rewrite Hs, Hnm. reflexivity.
Qed.

End BareHook.


(** C4, amended. In any state that a crawl reaches, take a bare specifier
    that is not excluded, not recorded yet, and that resolves to an
    absolute, non-virtual path which lies under [node_modules] or whose
    specifier is in the include list; if the specifier is an html-type path,
    let the target lie under [node_modules] and be optimizable, so that the
    html hook leaves it to the bare-import hook. Then [deps] maps the
    specifier to that path when the target is optimizable and is unchanged
    otherwise, and the edge is externalized unless the specifier is itself
    an entry, in which case the crawl does not load its target. *)
Theorem C4_dependency_recorded (H : Host) (config : ResolvedConfig)
    (es : list string) (crawl : list Edge) (st : State)
    (b : nat) (id imp : string) (pd : option string) (r : string) :
  let args := {| path := id; importer := imp; pluginData := pd |} in
  crawlEdges H config es (launch es) crawl = Some st ->
  bareSpecifier H id = true ->
  moduleListContains H (pluginExclude config) id = false ->
  truthyGet (depImports st) id = false ->
  (forall o, fst (resolve H st id (Some imp) o) = Some r) ->
  truthy r = true ->
  shouldExternalizeDep H r id = false ->
  includes r "node_modules" || includesOpt (pluginInclude config) id = true ->
  (test false htmlTypesRE id = true ->
   includes r "node_modules" && isOptimizable H r (optimizeDeps config) = true) ->
  exists st',
    onResolve H config es st args = (Some (externalUnlessEntry es id), st')
    /\ (isOptimizable H r (optimizeDeps config) = true ->
        getOwn (depImports st') id = Some r)
    /\ (isOptimizable H r (optimizeDeps config) = false ->
        depImports st' = depImports st)
    /\ missing st' = missing st
    /\ (existsb (String.eqb id) es = false ->
        crawlEdge H config es st {| edgeBuild := b; edgeArgs := args |} = Some st').
Proof.
  intros args Hreach Hbare He Hg Hres Ht Hs Hnm Hhtml.
  unfold bareSpecifier in Hbare.
  apply andb_prop in Hbare. destruct Hbare as [Hbare F3].
  apply andb_prop in Hbare. destruct Hbare as [Hbare F2].
  apply andb_prop in Hbare. destruct Hbare as [F5 F1].
  apply negb_true_iff in F1, F2, F3.
  assert (Hgoal : exists st1, sameRecords st st1 /\
            onResolve H config es st args
            = (Some (externalUnlessEntry es id),
               if isOptimizable H r (optimizeDeps config)
               then withDep st1 id r else st1)).
  { unfold onResolve, resolveHooks. cbn [runResolveHooks]. subst args. cbn [path].
    rewrite F1, F2, F3.
    destruct (test false htmlTypesRE id) eqn:F4.
    - unfold onResolve_html. cbn [path importer].
      destruct (resolve H st id (Some imp) None) as [r0 st0] eqn:Hr0.
      pose proof (Hres None) as Hf. rewrite Hr0 in Hf. simpl in Hf. subst r0.
      pose proof (resolve_records _ _ _ _ _ _ _ Hr0) as [Hs0 _].
      rewrite Ht, (Hhtml eq_refl). cbn [negb].
      assert (Hrun : exists st1, sameRecords st0 st1 /\
        runResolveHooks
          ((test false bareImportRE, onResolve_bare H config es)
           :: fallbackHooks H es) st0
          {| path := id; importer := imp; pluginData := pd |}
        = (Some (externalUnlessEntry es id),
           if isOptimizable H r (optimizeDeps config)
           then withDep st1 id r else st1)).
      { apply bareHooks_dependency; auto.
        - destruct Hs0 as (Hd & _). now rewrite Hd.
        - intros o. now rewrite (resolve_again _ _ _ _ _ o _ _ Hr0). }
      destruct Hrun as (st1 & Hs1 & Hrun). exists st1.
      split; [eapply sameRecords_trans; eauto|exact Hrun].
    - apply bareHooks_dependency; auto. }
  destruct Hgoal as (st1 & (Hd & Hm & _) & Hr).
  eexists. split; [exact Hr|].
  split; [|split; [|split]].
  - intros Ho. rewrite Ho. simpl. apply getOwn_set_eq.
  - intros Ho. now rewrite Ho.
  - destruct (isOptimizable H r (optimizeDeps config)); exact Hm.
  - intros Hne. unfold crawlEdge. cbn [edgeArgs]. rewrite Hr.
    rewrite (externalUnlessEntry_external es id Hne). reflexivity.
Qed.

Lemma Enumerated_split ks :
  Enumerated ks ->
  exists idx names,
    ks = (idx ++ names)%list
    /\ Forall (fun k => isArrayIndex k = true) idx
    /\ Forall (fun k => isArrayIndex k = false) names
    /\ StronglySorted indexLe idx
    /\ names = List.filter (fun k => negb (isArrayIndex k)) ks.
Proof.
  induction 1 as [ks Hall|k ks Hk Hle He IH].
  - exists [], ks. repeat split; try constructor; [exact Hall|].
    induction Hall as [|a l Ha Hl IHl]; simpl; [reflexivity|].
    rewrite Ha. simpl. now f_equal.
  - destruct IH as (idx & names & -> & Hidx & Hnames & Hsorted & Hf).
    exists (k :: idx), names. repeat split; auto.
    + constructor; [exact Hsorted|].
      apply List.Forall_app in Hle. destruct Hle as [Hle _].
      rewrite List.Forall_forall in *. intros a Ha. apply Hle; auto.
    + simpl. rewrite Hk. simpl. exact Hf.
Qed.

Lemma filter_keys {V} (o : JsObject V) :
  List.filter (fun k => negb (isArrayIndex k)) (keys o) = keys (List.filter named o).
Proof.
  unfold keys. induction o as [|[k v] o IH]; simpl; [reflexivity|].
  unfold named at 1. simpl. destruct (isArrayIndex k); simpl; now rewrite IH.
Qed.

Section Ordered.
Context (H : Host).
Hypothesis consistent : Consistent (localeCompare H).

Lemma orderedDependencies_perm o :
  List.NoDup (keys o) -> Permutation (orderedDependencies H o) o.
Proof.
  intros Hnd. unfold orderedDependencies, fromEntries, Js.entries.
  fold (byKey H). change (fold_left _ ?l []) with (assign [] l).
  rewrite assign_perm.
  - simpl. apply sort_perm.
  - simpl. eapply Permutation_NoDup; [|exact Hnd].
    unfold keys. apply Permutation_map. symmetry. apply sort_perm.
Qed.

Lemma orderedDependencies_order o :
  List.NoDup (keys o) ->
  Enumerated (keys (orderedDependencies H o))
  /\ StronglySorted (fun a b => (localeCompare H a b <= 0)%Z)
       (List.filter (fun k => negb (isArrayIndex k))
          (keys (orderedDependencies H o))).
Proof.
  intros Hnd. unfold orderedDependencies, fromEntries, Js.entries.
  fold (byKey H). change (fold_left _ ?l []) with (assign [] l).
  split.
  - apply assign_Enumerated. apply Enumerated_named. constructor.
  - rewrite filter_keys, assign_named.
    + simpl. unfold keys. apply StronglySorted_map.
      apply StronglySorted_filter.
      destruct consistent as [Htot Htrans].
      apply (sort_sorted (byKey H)).
      * intros a b. apply Htot.
      * intros a b c. apply Htrans.
    + simpl. eapply Permutation_NoDup; [|exact Hnd].
      unfold keys. apply Permutation_map. symmetry. apply sort_perm.
Qed.

Lemma orderedDependencies_unique o o' :
  List.NoDup (keys o) -> Permutation o o' ->
  NoTies (localeCompare H) (keys o) ->
  orderedDependencies H o = orderedDependencies H o'.
Proof.
  intros Hnd Hp Hties. unfold orderedDependencies, Js.entries. fold (byKey H).
  f_equal. destruct consistent as [Htot Htrans].
  apply (sorted_unique (fun a b => (byKey H a b <= 0)%Z)).
  - apply sort_sorted; [intros a b; apply Htot|intros a b c; apply Htrans].
  - apply sort_sorted; [intros a b; apply Htot|intros a b c; apply Htrans].
  - rewrite !sort_perm. exact Hp.
  - intros [k v] [k' v'] Ha Hb Hab Hba.
    eapply Permutation_in in Ha; [|apply sort_perm].
    eapply Permutation_in in Hb; [|apply sort_perm].
    assert (k = k').
    { apply Hties; auto; eapply In_keys; eauto. }
    subst k'. f_equal.
    apply (In_getOwn _ _ _ Hnd) in Ha. apply (In_getOwn _ _ _ Hnd) in Hb. congruence.
Qed.

End Ordered.

(** C1, amended. For every completed scan, the keys of the returned [deps]
    that are array indices come first, in ascending numeric order, and the
    other keys follow, sorted by [localeCompare]; and two completed scans
    that return the same set of (specifier, resolved path) pairs return the
    same mapping, in key order and in values, whatever the order of
    insertion, provided [localeCompare] does not tie two different keys. The
    hypothesis is that [localeCompare] is a consistent comparator. *)
Theorem C1_deps_order (H : Host) (config : ResolvedConfig) (crawl : list Edge)
    (r : ScanResult.t) (evs : list Event) :
  Consistent (localeCompare H) ->
  scanImports H config crawl = (Returns r, evs) ->
  (exists idx names,
     keys (ScanResult.deps r) = (idx ++ names)%list
     /\ Forall (fun k => isArrayIndex k = true) idx
     /\ Forall (fun k => isArrayIndex k = false) names
     /\ StronglySorted indexLe idx
     /\ StronglySorted (fun a b => (localeCompare H a b <= 0)%Z) names)
  /\ (forall config' crawl' r' evs',
        scanImports H config' crawl' = (Returns r', evs') ->
        Permutation (ScanResult.deps r) (ScanResult.deps r') ->
        NoTies (localeCompare H) (keys (ScanResult.deps r)) ->
        ScanResult.deps r = ScanResult.deps r').
Proof.
  intros Hcons Hscan.
  assert (Hshape : forall cfg cr res ev,
    scanImports H cfg cr = (Returns res, ev) ->
    exists o, List.NoDup (keys o) /\ ScanResult.deps res = orderedDependencies H o).
  { intros cfg cr res ev Hs. apply scanImports_returns in Hs.
    destruct Hs as [->|(es & st & Hc & Hd & _)].
    - exists []. split; [constructor|reflexivity].
    - exists (depImports st). split; [|exact Hd].
      apply crawlEdges_inv in Hc; [|apply launch_inv]. apply Hc. }
  destruct (Hshape _ _ _ _ Hscan) as (o & Hnd & Hd).
  split.
  - rewrite Hd. destruct (orderedDependencies_order H Hcons o Hnd) as [Hen Hso].
    destruct (Enumerated_split _ Hen) as (idx & names & Hk & Hi & Hn & Hs & Hf).
    exists idx, names. repeat split; auto. now rewrite Hf.
  - intros config' crawl' r' evs' Hscan' Hperm Hties.
    destruct (Hshape _ _ _ _ Hscan') as (o' & Hnd' & Hd').
    rewrite Hd, Hd' in *.
    apply orderedDependencies_unique; auto.
    + rewrite <- (orderedDependencies_perm H o Hnd).
      rewrite <- (orderedDependencies_perm H o' Hnd'). exact Hperm.
    + intros a b Ha Hb. apply Hties.
      * unfold keys in *. eapply Permutation_in; [|exact Ha].
        apply Permutation_map. symmetry. now apply orderedDependencies_perm.
      * unfold keys in *. eapply Permutation_in; [|exact Hb].
        apply Permutation_map. symmetry. now apply orderedDependencies_perm.
Qed.


Lemma append_assoc (a b c : string) : (a ++ b) ++ c = a ++ (b ++ c).
Proof.
  induction a as [|x a IH]; [reflexivity|].
  change (String x ((a ++ b) ++ c) = String x (a ++ (b ++ c))). now rewrite IH.
Qed.

Lemma append_empty_r (a : string) : a ++ "" = a.
Proof.
  induction a as [|x a IH]; [reflexivity|].
  change (String x (a ++ "") = String x a). now rewrite IH.
Qed.

Section HtmlHook.
Context (H : Host) (config : ResolvedConfig).
Hypothesis transform_total : forall c l, is_Some (transform H c l).




End HtmlHook.




Lemma codeUnitCompare_consistent : Consistent ExampleHost.codeUnitCompare.
Proof.
  split.
  - induction a as [|x a IH]; intros [|y b]; simpl; try lia.
    destruct (N.ltb_spec (N_of_ascii x) (N_of_ascii y));
      destruct (N.ltb_spec (N_of_ascii y) (N_of_ascii x)); try lia.
    apply IH.
  - induction a as [|x a IH]; intros [|y b] [|z c]; simpl; try lia.
    destruct (N.ltb_spec (N_of_ascii x) (N_of_ascii y));
      destruct (N.ltb_spec (N_of_ascii y) (N_of_ascii x));
      destruct (N.ltb_spec (N_of_ascii y) (N_of_ascii z));
      destruct (N.ltb_spec (N_of_ascii z) (N_of_ascii y));
      destruct (N.ltb_spec (N_of_ascii x) (N_of_ascii z));
      destruct (N.ltb_spec (N_of_ascii z) (N_of_ascii x)); try lia.
    apply IH.
Qed.

Lemma contains_In l id : In id l -> ExampleHost.contains l id = true.
Proof.
  intros Hin. unfold ExampleHost.contains. apply existsb_exists.
  exists id. split; [exact Hin|]. now rewrite String.eqb_refl.
Qed.

(* ================================================================== *)
(** ** Further properties of the scanner *)
(* ================================================================== *)

(** *** Patterns anchored at the start or at the end *)

(** A pattern that starts with [^] does not match after the first
    position. *)
Lemma search_Bol_later icase r : forall s c skip,
  search icase (Seq Bol r) (Some c) s skip = None.
Proof.
  induction s as [|a s IH]; intros c skip; simpl; [reflexivity|]. apply IH.
Qed.

Lemma test_Bol icase r s :
  test icase (Seq Bol r) s
  = match run icase r None s [] (fun p s' cs => Some (p, s', cs)) with
    | Some _ => true | None => false end.
Proof.
  unfold test. destruct s as [|a s]; simpl.
  - destruct (run icase r None "" [] _) as [[[p s'] cs]|]; reflexivity.
  - destruct (run icase r None (String a s) [] _) as [[[p s'] cs]|]; [reflexivity|].
    now rewrite search_Bol_later.
Qed.

Lemma bare_filter s :
  test false bareImportRE s =
  match s with
  | String a (String b _) =>
      (isWord a || Ascii.eqb a "@") && negb (Ascii.eqb b ":")
  | _ => false
  end.
Proof.
  unfold bareImportRE. cbn [cat]. rewrite test_Bol.
  destruct s as [|a [|b s]]; cbn [run clsMatch existsb atomMatch negb].
  - reflexivity.
  - destruct (isWord a || (Ascii.eqb "@" a || false)); reflexivity.
  - rewrite !orb_false_r, (Ascii.eqb_sym "@" a), (Ascii.eqb_sym ":" b).
    destruct (isWord a || Ascii.eqb a "@"); [|reflexivity].
    destruct (Ascii.eqb b ":"); reflexivity.
Qed.

Lemma startsWith_app p s : startsWith (p ++ s) p = true.
Proof.
  induction p as [|c p IH]; [now destruct s|].
  change (String c p ++ s) with (String c (p ++ s)). cbn [startsWith].
  now rewrite Ascii.eqb_refl, IH.
Qed.

Lemma startsWith_empty s : startsWith s "" = true.
Proof. now destruct s. Qed.

Lemma startsWith_split p : forall s,
  startsWith s p = true -> s = p ++ dropString (String.length p) s.
Proof.
  induction p as [|c p IH]; intros s; [reflexivity|].
  destruct s as [|d s]; cbn [startsWith]; [discriminate|].
  intros Hs. apply andb_prop in Hs. destruct Hs as [Hc Hs].
  apply Ascii.eqb_eq in Hc. subst d.
  change (String c s = String c (p ++ dropString (String.length p) s)).
  f_equal. now apply IH.
Qed.

Lemma revString_acc s : forall acc, revString s acc = revString s "" ++ acc.
Proof.
  induction s as [|c s IH]; intros acc; cbn [revString]; [reflexivity|].
  rewrite (IH (String c acc)), (IH (String c "")), append_assoc. reflexivity.
Qed.

Lemma revString_app a b : revString (a ++ b) "" = revString b "" ++ revString a "".
Proof.
  induction a as [|c a IH]; cbn [revString].
  - change ("" ++ b) with b. now rewrite append_empty_r.
  - change (String c a ++ b) with (String c (a ++ b)). cbn [revString].
    rewrite (revString_acc (a ++ b)), IH, (revString_acc a (String c "")).
    now rewrite append_assoc.
Qed.

Lemma revString_involutive s : revString (revString s "") "" = s.
Proof.
  induction s as [|c s IH]; [reflexivity|]. cbn [revString].
  rewrite (revString_acc s), revString_app, IH. reflexivity.
Qed.

(** [p.endsWith(x)] holds when [p] is some text followed by [x]. *)
Lemma endsWith_spec p x : endsWith p x = true <-> exists pre, p = pre ++ x.
Proof.
  unfold endsWith. split.
  - intros Hs. apply startsWith_split in Hs.
    exists (revString (dropString (String.length (revString x ""))
                         (revString p "")) "").
    rewrite <- (revString_involutive p) at 1. rewrite Hs at 1.
    now rewrite revString_app, revString_involutive.
  - intros [pre ->]. rewrite revString_app. apply startsWith_app.
Qed.

Section Literal.
Context {R : Type}.

Lemma run_str w : forall prev s cs (k : @Cont R),
  run false (str w) prev s cs k
  = if startsWith s w then k (lastChar prev w) (dropString (String.length w) s) cs
    else None.
Proof.
  induction w as [|c w IH]; intros prev s cs k.
  - cbn [str run lastChar String.length dropString]. now rewrite startsWith_empty.
  - assert (Hone : forall p (k : @Cont R), run false (chr c) p s cs k
        = match s with
          | String a s' => if Ascii.eqb c a then k (Some a) s' cs else None
          | EmptyString => None
          end).
    { intros p k0. destruct s as [|a s']; cbn [run chr clsMatch existsb atomMatch];
        [reflexivity|]. now rewrite orb_false_r. }
    destruct w as [|d w].
    + cbn [str lastChar String.length]. rewrite Hone.
      destruct s as [|a s']; [reflexivity|].
      cbn [startsWith dropString]. rewrite startsWith_empty, andb_true_r.
      destruct (Ascii.eqb_spec c a) as [->|]; reflexivity.
    + change (str (String c (String d w))) with (Seq (chr c) (str (String d w))).
      cbn [run]. rewrite Hone.
      destruct s as [|a s']; [reflexivity|].
      cbn [startsWith String.length dropString lastChar].
      destruct (Ascii.eqb_spec c a) as [->|]; [|reflexivity].
      cbn [andb]. rewrite IH. reflexivity.
Qed.

Lemma run_alt r rs : forall prev s cs (k : @Cont R),
  matched (run false (alt r rs) prev s cs k)
  = existsb (fun r' => matched (run false r' prev s cs k)) (r :: rs).
Proof.
  revert r. induction rs as [|r' rs IH]; intros r prev s cs k; cbn [alt existsb].
  - now rewrite orb_false_r.
  - cbn [run]. destruct (run false r prev s cs k); [reflexivity|].
    cbn [matched orb]. apply IH.
Qed.

End Literal.

Lemma eqb_startsWith s e :
  String.eqb s e
  = startsWith s e && matched (match dropString (String.length e) s with
                               | EmptyString => Some tt | String _ _ => None end).
Proof.
  revert s. induction e as [|c e IH]; intros [|d s]; cbn [startsWith String.length dropString];
    try reflexivity.
  cbn [String.eqb]. rewrite (Ascii.eqb_sym d c).
  destruct (Ascii.eqb c d); [|reflexivity]. cbn [andb]. apply IH.
Qed.

Lemma run_alternatives e0 es p s :
  matched (run false (alt (str e0) (map str es)) p s []
             (fun p' s' cs' =>
                match s' with
                | EmptyString => Some (p', s', (1, consumed s s') :: cs')
                | String _ _ => None
                end))
  = existsb (String.eqb s) (e0 :: es).
Proof.
  rewrite (run_alt (str e0) (map str es)).
  change (str e0 :: map str es) with (map str (e0 :: es)).
  generalize (e0 :: es). intros l.
  induction l as [|e l IH]; [reflexivity|].
  cbn [map existsb]. rewrite IH. f_equal.
  rewrite run_str, eqb_startsWith.
  destruct (startsWith s e); [|reflexivity]. cbn [andb].
  now destruct (dropString (String.length e) s).
Qed.

Lemma existsb_dotted a s l :
  existsb (fun e => String.eqb (String a s) ("." ++ e)) l
  = Ascii.eqb "." a && existsb (String.eqb s) l.
Proof.
  induction l as [|e l IH]; cbn [existsb]; [now rewrite andb_false_r|].
  rewrite IH. change ("." ++ e) with (String "." e). cbn [String.eqb].
  rewrite (Ascii.eqb_sym a "."). now destruct (Ascii.eqb "." a).
Qed.

Lemma existsb_dotted_empty l :
  existsb (fun e => String.eqb "" ("." ++ e)) l = false.
Proof. induction l as [|e l IH]; [reflexivity|exact IH]. Qed.

(** At one position, the pattern of an extension filter matches when the
    rest of the text is a dot followed by one of the extensions. *)
Lemma run_extension e0 es prev s :
  matched (run false (extensionRE e0 es) prev s [] (fun p s' cs => Some (p, s', cs)))
  = existsb (fun e => String.eqb s ("." ++ e)) (e0 :: es).
Proof.
  destruct s as [|a s]; [now rewrite existsb_dotted_empty|].
  rewrite existsb_dotted, <- (run_alternatives e0 es (Some a) s).
  unfold extensionRE. cbn [cat run chr clsMatch atomMatch existsb].
  rewrite orb_false_r.
  now destruct (Ascii.eqb "." a).
Qed.

Lemma search_extension e0 es : forall s prev skip,
  matched (search false (extensionRE e0 es) prev s skip) = true
  <-> exists pre e, In e (e0 :: es) /\ s = pre ++ "." ++ e.
Proof.
  induction s as [|a s IH]; intros prev skip.
  - cbn [search].
    pose proof (run_extension e0 es prev "") as Hr.
    destruct (run false (extensionRE e0 es) prev "" [] _) as [[[p s'] cs]|].
    + cbn [matched] in *. split; [intros _|reflexivity].
      symmetry in Hr. apply existsb_exists in Hr. destruct Hr as (e & Hin & He).
      apply String.eqb_eq in He. exists "", e. now split.
    + cbn [matched] in *. split; [discriminate|].
      intros (pre & e & Hin & Hs). destruct pre; discriminate.
  - cbn [search].
    pose proof (run_extension e0 es prev (String a s)) as Hr.
    destruct (run false (extensionRE e0 es) prev (String a s) [] _) as [[[p s'] cs]|].
    + cbn [matched] in *. split; [intros _|reflexivity].
      symmetry in Hr. apply existsb_exists in Hr. destruct Hr as (e & Hin & He).
      apply String.eqb_eq in He. exists "", e. now split.
    + cbn [matched] in Hr. rewrite IH. split.
      * intros (pre & e & Hin & ->). exists (String a pre), e. now split.
      * intros (pre & e & Hin & Hs). destruct pre as [|c pre].
        { exfalso. symmetry in Hr.
          assert (Ht : existsb (fun e => String.eqb (String a s) ("." ++ e)) (e0 :: es) = true).
          { apply existsb_exists. exists e. split; [exact Hin|].
            apply String.eqb_eq. exact Hs. }
          congruence. }
        injection Hs as -> ->. exists pre, e. now split.
Qed.

(** An extension filter tests whether the path ends with a dot and one of
    its extensions. *)
Lemma test_extension e0 es p :
  test false (extensionRE e0 es) p
  = existsb (fun e => endsWith p ("." ++ e)) (e0 :: es).
Proof.
  unfold test.
  change (match search false (extensionRE e0 es) None p "" with
          | Some _ => true | None => false end)
    with (matched (search false (extensionRE e0 es) None p "")).
  apply eq_true_iff_eq. rewrite search_extension, existsb_exists. split.
  - intros (pre & e & Hin & ->). exists e. split; [exact Hin|].
    apply endsWith_spec. now exists pre.
  - intros (e & Hin & He). apply endsWith_spec in He. destruct He as [pre ->].
    now exists pre, e.
Qed.

(** *** The resolve hooks *)

(** X1. The resolve hooks claim every import: whatever the path, the
    importer and the state, one of them returns a result, the catch-all
    hook at the latest; and resolving an import registers no script and
    reads no file. *)
Theorem onResolve_claims_every_path (H : Host) (config : ResolvedConfig)
    (es : list string) (st : State) (args : OnResolveArgs) :
  exists r st',
    onResolve H config es st args = (Some r, st')
    /\ scripts st' = scripts st
    /\ (forall p, In (ReadFile p) (events st') -> In (ReadFile p) (events st)).
Proof.
  destruct (onResolve H config es st args) as [res st'] eqn:Hr.
  apply onResolve_change in Hr. destruct Hr as (_ & _ & Hsc & Hq & [r ->]).
  exists r, st'. repeat split; auto.
Qed.


(** X3. An import whose path is one of the entries is never marked external,
    whichever hook answers it, unless the path is a remote URL, a data URL
    or carries a special query. *)
Theorem entries_are_crawled (H : Host) (config : ResolvedConfig)
    (es : list string) (st : State) (args : OnResolveArgs)
    (r : OnResolveResult) (st' : State) :
  existsb (String.eqb (path args)) es = true ->
  test false externalRE (path args) = false ->
  dataUrlRE H (path args) = false ->
  SPECIAL_QUERY_RE H (path args) = false ->
  onResolve H config es st args = (Some r, st') ->
  external r = false.
Proof.
  intros Hentry F1 F2 F8.
  assert (Hx : external (externalUnlessEntry es (path args)) = false).
  { unfold externalUnlessEntry. cbn [external]. now rewrite Hentry. }
  unfold onResolve, resolveHooks. cbn [runResolveHooks]. rewrite F1, F2.
  destruct (test false virtualModuleRE (path args)); [now intros [= <- _]|].
  assert (Hfall : forall st1,
    runResolveHooks (fallbackHooks H es) st1 args = (Some r, st') ->
    external r = false).
  { intros st1. unfold fallbackHooks. cbn [runResolveHooks]. rewrite F8.
    destruct (test false cssJsonWasmRE (path args)); [now intros [= <- _]|].
    destruct (knownAssetTypesRE H (path args)); [now intros [= <- _]|].
    unfold onResolve_catchAll.
    destruct (resolve H st1 _ _ _) as [resolved st2].
    destruct (truthyOpt resolved); [|now intros [= <- _]].
    destruct (_ || _); now intros [= <- _]. }
  assert (Hbare : forall st1,
    runResolveHooks
      ((test false bareImportRE, onResolve_bare H config es)
       :: fallbackHooks H es) st1 args = (Some r, st') ->
    external r = false).
  { intros st1. cbn [runResolveHooks].
    destruct (test false bareImportRE (path args)); [|apply Hfall].
    unfold onResolve_bare.
    destruct (moduleListContains H _ _); [now intros [= <- _]|].
    destruct (truthyGet _ _); [now intros [= <- _]|].
    destruct (resolve H st1 _ _ _) as [resolved st2].
    destruct (truthyOpt resolved); [|apply Hfall].
    destruct (shouldExternalizeDep H _ _); [now intros [= <- _]|].
    destruct (_ || _).
    - destruct (isOptimizable H _ _); now intros [= <- _].
    - destruct (isScannable H _); now intros [= <- _]. }
  destruct (test false htmlTypesRE (path args)); [|apply Hbare].
  unfold onResolve_html.
  destruct (resolve H st _ _ _) as [resolved st1].
  destruct resolved as [r0|]; [|apply Hbare].
  destruct (negb (truthy r0)); [apply Hbare|].
  destruct (_ && _); [apply Hbare|]. now intros [= <- _].
Qed.

(** X4. A bare specifier that is not an html-type path, is neither excluded
    nor recorded, and resolves to an absolute, non-virtual path outside
    [node_modules] without being in the include list, is a linked package:
    nothing is recorded for it, and the crawl goes on into the resolved file
    when that file is scannable; otherwise the import is externalized unless
    the specifier is an entry. *)
Theorem linked_package_crawled (H : Host) (config : ResolvedConfig)
    (es : list string) (st : State) (id imp : string) (pd : option string)
    (r : string) :
  let args := {| path := id; importer := imp; pluginData := pd |} in
  bareSpecifier H id = true ->
  test false htmlTypesRE id = false ->
  moduleListContains H (pluginExclude config) id = false ->
  truthyGet (depImports st) id = false ->
  fst (resolve H st id (Some imp) (depScanOptions args)) = Some r ->
  truthy r = true ->
  shouldExternalizeDep H r id = false ->
  includes r "node_modules" = false ->
  includesOpt (pluginInclude config) id = false ->
  exists st',
    onResolve H config es st args
    = (Some (if isScannable H r
             then {| resolvedPath := path_resolve H [r]; external := false;
                     namespace := namespaceOf r |}
             else externalUnlessEntry es id), st')
    /\ depImports st' = depImports st
    /\ missing st' = missing st
    /\ scripts st' = scripts st.
Proof.
  intros args Hbare F4 He Hg Hres Ht Hs Hnm Hinc.
  unfold bareSpecifier in Hbare.
  apply andb_prop in Hbare. destruct Hbare as [Hbare F3].
  apply andb_prop in Hbare. destruct Hbare as [Hbare F2].
  apply andb_prop in Hbare. destruct Hbare as [F5 F1].
  apply negb_true_iff in F1, F2, F3.
  unfold onResolve, resolveHooks. cbn [runResolveHooks]. subst args. cbn [path].
  rewrite F1, F2, F3, F4, F5.
  unfold onResolve_bare. cbn [path importer]. rewrite He, Hg.
  destruct (resolve H st id (Some imp)
              (depScanOptions {| path := id; importer := imp; pluginData := pd |}))
    as [r1 st1] eqn:Hr.
  cbn [fst] in Hres. subst r1.
  apply resolve_records in Hr. destruct Hr as [(Hd & Hm & Hsc) _].
  cbn [truthyOpt]. rewrite Ht. change (default "" (Some r)) with r.
  rewrite Hs, Hnm, Hinc. cbn [orb].
  exists st1. split; [|now repeat split].
  destruct (isScannable H r); reflexivity.
Qed.

(** *** Virtual modules *)

Lemma starGreedy_total {R : Type} icase c :
  forall s prev (k : option ascii -> string -> option R),
  (forall p s', is_Some (k p s')) -> is_Some (starGreedy icase c prev s k).
Proof.
  induction s as [|a s IH]; intros prev k Hk; simpl; [apply Hk|].
  destruct (clsMatch icase c a); [|apply Hk].
  destruct (IH (Some a) k Hk) as [x ->]. eauto.
Qed.

Lemma dropString_app p s : dropString (String.length p) (p ++ s) = s.
Proof. induction p as [|c p IH]; [reflexivity|exact IH]. Qed.

(** [(p + s).replace(p, r)] is [r + s]. *)
Lemma replaceFirst_prefix p s r : replaceFirst (p ++ s) p r = r ++ s.
Proof.
  assert (Hu : forall x, replaceFirst x p r
                 = if startsWith x p then r ++ dropString (String.length p) x
                   else match x with
                        | EmptyString => EmptyString
                        | String c x' => String c (replaceFirst x' p r)
                        end) by (now intros [|c x']).
  now rewrite Hu, startsWith_app, dropString_app.
Qed.

Lemma virtual_filters key :
  test false externalRE (virtualModulePrefix ++ key) = false
  /\ test false virtualModuleRE (virtualModulePrefix ++ key) = true
  /\ replaceFirst (virtualModulePrefix ++ key) virtualModulePrefix "" = key.
Proof.
  split; [|split].
  - unfold externalRE. cbn [cat]. rewrite test_Bol. vm_compute. reflexivity.
  - unfold virtualModuleRE. cbn [cat]. rewrite test_Bol.
    set (s := virtualModulePrefix ++ key). cbv in s. subst s.
    set (r := str virtualModulePrefix). cbv in r. subst r.
    cbn [run clsMatch existsb atomMatch].
    repeat (rewrite Ascii.eqb_refl; cbn [orb]).
    match goal with |- context [starGreedy ?i ?c ?p ?s ?k] =>
      destruct (starGreedy_total i c s p k) as [x ->]; [eauto|]
    end. reflexivity.
  - apply replaceFirst_prefix.
Qed.

(** X5. A script registered under a key by a crawl is what an import of the
    reserved prefix followed by that key loads in the same crawl: the
    resolve hooks strip the prefix and answer with the key in the [script]
    namespace, the load hook of that namespace returns the registered
    script, and the state is left as it is. The hypothesis on [dataUrlRE]
    says that the hook for data URLs, registered earlier, does not claim the
    path. *)
Theorem virtual_module_round_trip (H : Host) (config : ResolvedConfig)
    (es : list string) (st : State) (b : nat) (key imp : string)
    (pd : option string) (s : OnLoadResult) :
  let args := {| path := virtualModulePrefix ++ key; importer := imp;
                 pluginData := pd |} in
  scripts st !! (b, key) = Some s ->
  dataUrlRE H (virtualModulePrefix ++ key) = false ->
  onResolve H config es st args
  = (Some {| resolvedPath := key; external := false;
             namespace := Some "script" |}, st)
  /\ onLoad H config st b key (Some "script") = Some (Some s, st)
  /\ crawlEdge H config es st {| edgeBuild := b; edgeArgs := args |} = Some st.
Proof.
  intros args Hs Hd.
  destruct (virtual_filters key) as (F1 & F3 & Hrep).
  assert (Hr : onResolve H config es st args
               = (Some {| resolvedPath := key; external := false;
                          namespace := Some "script" |}, st)).
  { unfold onResolve, resolveHooks. cbn [runResolveHooks]. subst args. cbn [path].
    rewrite F1, Hd, F3. unfold onResolve_virtualModule. cbn [path].
    now rewrite Hrep. }
  assert (Hl : onLoad H config st b key (Some "script") = Some (Some s, st)).
  { unfold onLoad. cbn [inNamespace]. rewrite String.eqb_refl. now rewrite Hs. }
  split; [exact Hr|]. split; [exact Hl|].
  unfold crawlEdge. cbn [edgeArgs]. rewrite Hr. cbn [external resolvedPath namespace edgeBuild].
  now rewrite Hl.
Qed.

Section BuildFacts.
Context (H : Host) (config : ResolvedConfig) (es : list string).

Lemma sameBuilds_refl st : sameBuilds st st.
Proof. now intros e. Qed.

Lemma sameBuilds_trans st1 st2 st3 :
  sameBuilds st1 st2 -> sameBuilds st2 st3 -> sameBuilds st1 st3.
Proof. unfold sameBuilds. auto. Qed.

Lemma sameBuilds_events st st' : events st' = events st -> sameBuilds st st'.
Proof. intros He e. now rewrite He. Qed.

Lemma emit_builds st ev :
  (forall e, ev <> Build e) -> sameBuilds st (emit st ev).
Proof.
  intros Hne e. simpl. rewrite in_app_iff. simpl.
  intros [Hi|[Hi|[]]]; [exact Hi|]. now apply Hne in Hi.
Qed.

Lemma resolve_builds st id imp o r st' :
  resolve H st id imp o = (r, st') -> sameBuilds st st'.
Proof.
  unfold resolve, resolve_begin, resolve_end.
  destruct (seen st !! resolveKey H id imp).
  - intros [= _ <-]. apply sameBuilds_refl.
  - intros [= _ <-]. apply (emit_builds st). discriminate.
Qed.

Lemma onResolve_html_builds st args res st' :
  onResolve_html H config st args = (res, st') -> sameBuilds st st'.
Proof.
  unfold onResolve_html.
  destruct (resolve H st (path args) (Some (importer args)) None)
    as [resolved st1] eqn:Hr.
  apply resolve_builds in Hr.
  destruct resolved as [r|]; [|now intros [= _ <-]].
  destruct (negb (truthy r)); [now intros [= _ <-]|].
  destruct (includes r "node_modules" && isOptimizable H r (optimizeDeps config));
    now intros [= _ <-].
Qed.

Lemma onResolve_bare_builds st args res st' :
  onResolve_bare H config es st args = (res, st') -> sameBuilds st st'.
Proof.
  unfold onResolve_bare.
  destruct (moduleListContains H (pluginExclude config) (path args)).
  { intros [= _ <-]. apply sameBuilds_refl. }
  destruct (truthyGet (depImports st) (path args)).
  { intros [= _ <-]. apply sameBuilds_refl. }
  destruct (resolve H st (path args) (Some (importer args)) (depScanOptions args))
    as [resolved st1] eqn:Hr.
  apply resolve_builds in Hr.
  destruct (truthyOpt resolved).
  - destruct (shouldExternalizeDep H (default "" resolved) (path args)).
    { now intros [= _ <-]. }
    destruct (includes (default "" resolved) "node_modules"
              || includesOpt (pluginInclude config) (path args)).
    + destruct (isOptimizable H (default "" resolved) (optimizeDeps config));
        now intros [= _ <-].
    + destruct (isScannable H (default "" resolved)); now intros [= _ <-].
  - now intros [= _ <-].
Qed.

Lemma onResolve_catchAll_builds st args res st' :
  onResolve_catchAll H es st args = (res, st') -> sameBuilds st st'.
Proof.
  unfold onResolve_catchAll.
  destruct (resolve H st (path args) (Some (importer args)) (depScanOptions args))
    as [resolved st1] eqn:Hr.
  apply resolve_builds in Hr.
  destruct (truthyOpt resolved).
  - destruct (shouldExternalizeDep H (default "" resolved) (path args)
              || negb (isScannable H (default "" resolved)));
      now intros [= _ <-].
  - now intros [= _ <-].
Qed.

Lemma runResolveHooks_builds hooks :
  Forall (fun fh => forall st args res st',
            snd fh st args = (res, st') -> sameBuilds st st') hooks ->
  forall st args res st',
    runResolveHooks hooks st args = (res, st') -> sameBuilds st st'.
Proof.
  induction 1 as [|[f h] hooks Hh _ IH]; intros st args res st'; cbn [runResolveHooks].
  - intros [= _ <-]. apply sameBuilds_refl.
  - destruct (f (path args)); [|apply IH].
    destruct (h st args) as [[r|] st1] eqn:Hrun; apply Hh in Hrun.
    + now intros [= _ <-].
    + intros Hr. apply IH in Hr. eapply sameBuilds_trans; eauto.
Qed.

Lemma onResolve_builds st args res st' :
  onResolve H config es st args = (res, st') -> sameBuilds st st'.
Proof.
  apply runResolveHooks_builds. unfold resolveHooks, fallbackHooks.
  repeat constructor; cbn [snd];
    try (intros st0 args0 res0 st0' [= _ <-]; apply sameBuilds_refl).
  - apply onResolve_html_builds.
  - apply onResolve_bare_builds.
  - apply onResolve_catchAll_builds.
Qed.

Lemma doTransformGlobImport_events st contents id loader r st' :
  doTransformGlobImport H config st contents id loader = Some (r, st') ->
  events st' = events st /\ scripts st' = scripts st.
Proof.
  unfold doTransformGlobImport.
  destruct (if negb (String.eqb loader "js") then transform H contents loader
            else Some contents) as [t|]; simpl; [|discriminate].
  destruct (transformGlobImport H (seen st) t id (root config)) as [result seen'].
  intros [= _ <-]. now split.
Qed.

(** What the registration of an inline script adds to the registry. *)
Lemma registerScript_adds st build p key contents l st' :
  registerScript H config st build p key contents l = Some st' ->
  events st' = events st
  /\ exists s, scripts st' = <[(build, key) := s]> (scripts st)
               /\ htmlTypeLoader s = Some l
               /\ (loader s = l \/ loader s = "js").
Proof.
  unfold registerScript. destruct (includes contents "import.meta.glob").
  - destruct (doTransformGlobImport H config st contents p l)
      as [[t st1]|] eqn:Hd; simpl; [|discriminate].
    apply doTransformGlobImport_events in Hd. destruct Hd as [He Hs].
    intros [= <-]. split; [exact He|]. eexists. simpl. rewrite Hs.
    split; [reflexivity|]. split; [reflexivity|now right].
  - intros [= <-]. split; [reflexivity|]. eexists. simpl.
    split; [reflexivity|]. split; [reflexivity|now left].
Qed.

Lemma loaderOf_htmlLoaders p lang : In (loaderOf p lang) htmlLoaders.
Proof.
  unfold loaderOf, htmlLoaders.
  destruct lang as [l|].
  - destruct (String.eqb_spec l "ts") as [->|]; [simpl; tauto|].
    destruct (String.eqb_spec l "tsx") as [->|]; [simpl; tauto|].
    destruct (String.eqb_spec l "jsx") as [->|]; [simpl; tauto|].
    simpl. destruct (endsWith p ".astro"); simpl; tauto.
  - destruct (endsWith p ".astro"); simpl; tauto.
Qed.

Lemma scriptBlock_scripts build p js n st m js' n' st' :
  test false htmlTypesRE p = true ->
  scriptBlock H config build p (js, n, st) m = Some (js', n', st') ->
  events st' = events st /\ (ScriptsInv st -> ScriptsInv st').
Proof.
  intros Hp. unfold scriptBlock.
  destruct (skippedType _); [intros [= <- <- <-]; now split|].
  destruct (matchOnce true srcRE _); [intros [= <- <- <-]; now split|].
  destruct (truthy _); [|intros [= <- <- <-]; now split].
  destruct (registerScript _ _ _ _ _ _ _ _) as [st1|] eqn:Hr; simpl; [|discriminate].
  apply registerScript_adds in Hr. destruct Hr as (He & s & Hs & Hl & Hld).
  assert (Hinv : ScriptsInv st -> ScriptsInv st1).
  { intros Hinv b key s0. rewrite Hs.
    destruct (decide ((build, p ++ "?id=" ++ numberToString n) = (b, key)))
      as [[= <- <-]|Hne].
    - rewrite lookup_insert_eq. intros [= <-]. split.
      + now exists p, n.
      + eexists. split; [exact Hl|]. split; [apply loaderOf_htmlLoaders|exact Hld].
    - rewrite lookup_insert_ne by exact Hne. apply Hinv. }
  destruct (_ && _); intros [= <- <- <-]; now split.
Qed.

Lemma scriptBlocks_scripts build p ms : forall js n st js' n' st',
  test false htmlTypesRE p = true ->
  scriptBlocks H config build p (js, n, st) ms = Some (js', n', st') ->
  events st' = events st /\ (ScriptsInv st -> ScriptsInv st').
Proof.
  induction ms as [|m ms IH]; intros js n st js' n' st' Hp; cbn [scriptBlocks].
  - intros [= <- <- <-]. now split.
  - destruct (scriptBlock H config build p (js, n, st) m)
      as [[[js1 n1] st1]|] eqn:Hb; cbn [mbind option_bind]; [|discriminate].
    apply scriptBlock_scripts in Hb; [|exact Hp]. intros Hs. apply IH in Hs; [|exact Hp].
    destruct Hb as [He1 Hi1], Hs as [He2 Hi2]. split; [congruence|auto].
Qed.

Lemma onLoad_html_scripts st build p r st' :
  test false htmlTypesRE p = true ->
  onLoad_html H config st build p = Some (r, st') ->
  sameBuilds st st' /\ (ScriptsInv st -> ScriptsInv st').
Proof.
  intros Hp. unfold onLoad_html.
  destruct (readFileSync H p) as [raw|]; simpl; [|discriminate].
  destruct (execAll true _ _) as [ms|]; simpl; [|discriminate].
  destruct (scriptBlocks _ _ _ _ _ _) as [[[js n] st1]|] eqn:Hs; simpl; [|discriminate].
  apply scriptBlocks_scripts in Hs; [|exact Hp]. destruct Hs as [He Hi].
  intros [= _ <-]. split.
  - eapply sameBuilds_trans; [apply (emit_builds st (ReadFile p)); discriminate|].
    now apply sameBuilds_events.
  - intros Hinv. apply Hi. exact Hinv.
Qed.

Lemma onLoad_js_scripts st id r st' :
  onLoad_js H config st id = Some (r, st') ->
  sameBuilds st st' /\ scripts st' = scripts st.
Proof.
  unfold onLoad_js.
  destruct (readFileSync H id) as [raw|]; simpl; [|discriminate].
  destruct (includes _ "import.meta.glob").
  - destruct (doTransformGlobImport _ _ _ _ _ _) as [[t st1]|] eqn:Hd; simpl; [|discriminate].
    apply doTransformGlobImport_events in Hd. destruct Hd as [He Hs].
    intros [= _ <-]. split; [|exact Hs].
    eapply sameBuilds_trans; [apply (emit_builds st (ReadFile id)); discriminate|].
    now apply sameBuilds_events.
  - intros [= _ <-]. split; [|reflexivity].
    apply (emit_builds st (ReadFile id)); discriminate.
Qed.

Lemma onLoad_scripts st build p ns r st' :
  onLoad H config st build p ns = Some (r, st') ->
  sameBuilds st st' /\ (ScriptsInv st -> ScriptsInv st').
Proof.
  unfold onLoad.
  destruct (if inNamespace ns "script" then scripts st !! (build, p) else None).
  { intros [= _ <-]. split; [apply sameBuilds_refl|auto]. }
  destruct (inNamespace ns "html" && test false htmlTypesRE p) eqn:Hh.
  { apply andb_prop in Hh. destruct Hh as [_ Hp].
    destruct (onLoad_html H config st build p) as [[r1 st1]|] eqn:Hl; simpl; [|discriminate].
    apply onLoad_html_scripts in Hl; [|exact Hp]. now intros [= _ <-]. }
  destruct (JS_TYPES_RE H p).
  { destruct (onLoad_js H config st p) as [[r1 st1]|] eqn:Hl; simpl; [|discriminate].
    apply onLoad_js_scripts in Hl. destruct Hl as [Hb Hs]. intros [= _ <-].
    split; [exact Hb|]. unfold ScriptsInv. now rewrite Hs. }
  destruct (inNamespace ns "file"); [|discriminate].
  destruct (readFileSync H p); simpl; [|discriminate].
  intros [= _ <-]. split; [apply (emit_builds st (ReadFile p)); discriminate|auto].
Qed.

Lemma crawlEdge_scripts st e st' :
  crawlEdge H config es st e = Some st' ->
  sameBuilds st st' /\ (ScriptsInv st -> ScriptsInv st').
Proof.
  unfold crawlEdge.
  destruct (onResolve H config es st (edgeArgs e)) as [res st1] eqn:Hr.
  pose proof (onResolve_builds _ _ _ _ Hr) as Hb.
  apply onResolve_change in Hr. destruct Hr as (_ & _ & Hsc & _ & _).
  assert (Hinv1 : ScriptsInv st -> ScriptsInv st1)
    by (unfold ScriptsInv; now rewrite Hsc).
  assert (Hload : forall p ns,
    snd <$> onLoad H config st1 (edgeBuild e) p ns = Some st' ->
    sameBuilds st st' /\ (ScriptsInv st -> ScriptsInv st')).
  { intros p ns Hl.
    destruct (onLoad H config st1 (edgeBuild e) p ns) as [[r st2]|] eqn:Hl';
      simpl in Hl; [|discriminate].
    injection Hl as <-. apply onLoad_scripts in Hl'. destruct Hl' as [Hb' Hi'].
    split; [eapply sameBuilds_trans; eauto|auto]. }
  destruct res as [r|]; [|eauto].
  destruct (external r); [|eauto]. intros [= <-]. now split.
Qed.

Lemma crawlEdges_scripts crawl : forall st st',
  crawlEdges H config es st crawl = Some st' ->
  sameBuilds st st' /\ (ScriptsInv st -> ScriptsInv st').
Proof.
  induction crawl as [|e crawl IH]; intros st st'; cbn [crawlEdges].
  - intros [= <-]. split; [apply sameBuilds_refl|auto].
  - destruct (crawlEdge H config es st e) as [st1|] eqn:He;
      cbn [mbind option_bind]; [|discriminate].
    intros Hrun. apply IH in Hrun. apply crawlEdge_scripts in He.
    destruct He as [Hb1 Hi1], Hrun as [Hb2 Hi2].
    split; [eapply sameBuilds_trans; eauto|auto].
Qed.

End BuildFacts.

Lemma launch_events es : events (launch es) = map Build es.
Proof.
  unfold launch.
  enough (Hgen : forall st,
    events (fold_left (fun st entry => emit st (Build entry)) es st)
    = (events st ++ map Build es)%list) by apply Hgen.
  induction es as [|e es IH]; intros st; simpl.
  - now rewrite app_nil_r.
  - rewrite IH. simpl. now rewrite <- app_assoc.
Qed.

(** X6. In any state that a crawl reaches, every script of the registry is
    stored under a key made of an html-type path, [?id=] and a number, it
    records as the loader of its html type one of [js], [ts], [tsx] and
    [jsx], and its own loader is that one or [js]. *)
Theorem registered_scripts (H : Host) (config : ResolvedConfig)
    (es : list string) (crawl : list Edge) (st : State)
    (b : nat) (key : string) (s : OnLoadResult) :
  crawlEdges H config es (launch es) crawl = Some st ->
  scripts st !! (b, key) = Some s ->
  (exists p n, key = p ++ "?id=" ++ numberToString n
               /\ test false htmlTypesRE p = true)
  /\ exists l, htmlTypeLoader s = Some l /\ In l ["js"; "ts"; "tsx"; "jsx"]
               /\ (loader s = l \/ loader s = "js").
Proof.
  intros Hc Hs. apply crawlEdges_scripts in Hc. destruct Hc as [_ Hinv].
  apply (Hinv) with (b := b); [|exact Hs].
  intros b0 key0 s0. destruct (launch_records es) as (_ & _ & _ & ->).
  now rewrite lookup_empty.
Qed.






Section InlineFacts.
Context (H : Host) (config : ResolvedConfig).




End InlineFacts.


(** *** The records of a scan *)


Section DepFacts.
Context (H : Host) (config : ResolvedConfig) (es : list string).

Lemma recordsAtMost_same st0 st1 st2 st3 id :
  sameRecords st0 st1 -> recordsAtMost H config st1 id st2 -> sameRecords st2 st3 ->
  recordsAtMost H config st0 id st3.
Proof.
  intros (Hd1 & _) [Hd|(r & Hr & Hd)] (Hd3 & _).
  - left. congruence.
  - right. exists r. split; [exact Hr|]. congruence.
Qed.

Lemma onResolve_bare_recorded st args res st' :
  onResolve_bare H config es st args = (res, st') ->
  recordsAtMost H config st (path args) st'.
Proof.
  unfold onResolve_bare.
  destruct (moduleListContains H (pluginExclude config) (path args)).
  { intros [= <- <-]. now left. }
  destruct (truthyGet (depImports st) (path args)).
  { intros [= <- <-]. now left. }
  destruct (resolve H st (path args) (Some (importer args)) (depScanOptions args))
    as [resolved st1] eqn:Hr.
  apply resolve_records in Hr. destruct Hr as [(Hd & _) _].
  destruct (truthyOpt resolved) eqn:Ht.
  - destruct (shouldExternalizeDep H (default "" resolved) (path args)) eqn:Hs.
    { intros [= <- <-]. now left. }
    destruct (includes (default "" resolved) "node_modules"
              || includesOpt (pluginInclude config) (path args)) eqn:Hn.
    + destruct (isOptimizable H (default "" resolved) (optimizeDeps config)) eqn:Ho;
        intros [= <- <-]; [|now left].
      right. exists (default "" resolved). split.
      * split; [destruct resolved; [exact Ht|discriminate]|]. now repeat split.
      * simpl. now rewrite Hd.
    + destruct (isScannable H (default "" resolved)); intros [= <- <-]; now left.
  - intros [= <- <-]. now left.
Qed.

Lemma onResolve_recorded st args res st' :
  onResolve H config es st args = (res, st') ->
  recordsAtMost H config st (path args) st'.
Proof.
  unfold onResolve, resolveHooks. cbn [runResolveHooks].
  destruct (test false externalRE (path args)); [intros [= <- <-]; now left|].
  destruct (dataUrlRE H (path args)); [intros [= <- <-]; now left|].
  destruct (test false virtualModuleRE (path args)); [intros [= <- <-]; now left|].
  assert (Hrest : forall st1, sameRecords st st1 ->
    runResolveHooks
      ((test false bareImportRE, onResolve_bare H config es)
       :: fallbackHooks H es) st1 args = (res, st') ->
    recordsAtMost H config st (path args) st').
  { intros st1 Hs1. cbn [runResolveHooks].
    destruct (test false bareImportRE (path args)).
    - destruct (onResolve_bare H config es st1 args) as [[r|] st2] eqn:Hb;
        apply onResolve_bare_recorded in Hb.
      + intros [= <- <-].
        eapply recordsAtMost_same; [exact Hs1|exact Hb|apply sameRecords_refl].
      + intros Hf. apply fallbackHooks_records in Hf. destruct Hf as (Hs3 & _).
        eapply recordsAtMost_same; eauto.
    - intros Hf. apply fallbackHooks_records in Hf. destruct Hf as (Hs3 & _).
      left. destruct Hs1 as (? & _), Hs3 as (? & _). congruence. }
  destruct (test false htmlTypesRE (path args)).
  - destruct (onResolve_html H config st args) as [[r|] st1] eqn:Hh;
      apply onResolve_html_records in Hh; destruct Hh as [Hs _].
    + intros [= <- <-]. left. now destruct Hs.
    + now apply Hrest.
  - apply Hrest, sameRecords_refl.
Qed.

Lemma crawlEdge_recorded st e st' :
  crawlEdge H config es st e = Some st' ->
  recordsAtMost H config st (path (edgeArgs e)) st'.
Proof.
  unfold crawlEdge.
  destruct (onResolve H config es st (edgeArgs e)) as [res st1] eqn:Hr.
  apply onResolve_recorded in Hr.
  assert (Hload : forall p ns,
    snd <$> onLoad H config st1 (edgeBuild e) p ns = Some st' ->
    depImports st' = depImports st1).
  { intros p ns Hl.
    destruct (onLoad H config st1 (edgeBuild e) p ns) as [[r st2]|] eqn:Hl';
      simpl in Hl; [|discriminate].
    injection Hl as <-. apply onLoad_deps in Hl'. now destruct Hl'. }
  assert (Hgo : depImports st' = depImports st1 ->
                recordsAtMost H config st (path (edgeArgs e)) st').
  { intros Hd. destruct Hr as [Hr|(r & Hrec & Hr)]; [left|right; exists r; split; auto];
      congruence. }
  destruct res as [r|]; [|eauto].
  destruct (external r); [|eauto]. intros [= <-]. exact Hr.
Qed.

Lemma crawlEdges_recorded crawl : forall st st',
  crawlEdges H config es st crawl = Some st' ->
  Forall (fun kv => recordedAs H config (fst kv) (snd kv)) (depImports st) ->
  Forall (fun kv => recordedAs H config (fst kv) (snd kv)) (depImports st').
Proof.
  induction crawl as [|e crawl IH]; intros st st'; cbn [crawlEdges].
  - now intros [= <-].
  - destruct (crawlEdge H config es st e) as [st1|] eqn:He;
      cbn [mbind option_bind]; [|discriminate].
    intros Hrun Hall. eapply IH; [exact Hrun|].
    apply crawlEdge_recorded in He. destruct He as [Hd|(r & Hrec & Hd)]; rewrite Hd.
    + exact Hall.
    + apply List.Forall_forall. intros kv Hin. apply In_set in Hin.
      destruct Hin as [->|Hin]; [exact Hrec|].
      rewrite List.Forall_forall in Hall. now apply Hall.
Qed.

End DepFacts.

Lemma orderedDependencies_In H o kv :
  In kv (orderedDependencies H o) -> In kv o.
Proof.
  unfold orderedDependencies, fromEntries. intros Hin.
  apply (In_assign _ []) in Hin. destruct Hin as [[]|Hin].
  eapply Permutation_in in Hin; [exact Hin|apply sort_perm].
Qed.

(** X9. Every value of the [deps] that a scan returns has passed the checks
    of the bare-import hook: it is a non-empty absolute path that differs
    from its specifier and holds no NUL character, it lies under
    [node_modules] or its specifier is in the include list, and it is
    optimizable. *)
Theorem deps_values_checked (H : Host) (config : ResolvedConfig)
    (crawl : list Edge) (r : ScanResult.t) (evs : list Event) (k v : string) :
  scanImports H config crawl = (Returns r, evs) ->
  In (k, v) (ScanResult.deps r) ->
  v <> ""
  /\ path_isAbsolute H v = true
  /\ v <> k
  /\ includes v (String (ascii_of_nat 0) EmptyString) = false
  /\ (includes v "node_modules" = true
      \/ exists l, include (optimizeDeps config) = Some l /\ In k l)
  /\ isOptimizable H v (optimizeDeps config) = true.
Proof.
  intros Hs Hin. apply scanImports_returns in Hs.
  destruct Hs as [->|(es & st & Hc & Hd & _)]; [destruct Hin|].
  rewrite Hd in Hin. apply orderedDependencies_In in Hin.
  apply crawlEdges_recorded in Hc.
  - rewrite List.Forall_forall in Hc. apply Hc in Hin.
    destruct Hin as (Ht & Hx & Hn & Ho). cbn [fst snd] in *.
    split; [now destruct v|].
    unfold shouldExternalizeDep in Hx.
    destruct (path_isAbsolute H v); [|discriminate]. cbn [negb] in Hx.
    destruct (String.eqb_spec v k) as [->|Hne]; [discriminate|].
    cbn [orb] in Hx.
    destruct (includes v _); [discriminate|].
    repeat split; auto.
    apply orb_prop in Hn. destruct Hn as [Hn|Hn]; [now left|right].
    unfold includesOpt, pluginInclude in Hn.
    destruct (include (optimizeDeps config)) as [l|]; [|discriminate].
    exists l. split; [reflexivity|].
    apply existsb_exists in Hn. destruct Hn as (x & Hx' & He).
    apply String.eqb_eq in He. now subst.
  - destruct (launch_records es) as (-> & _). constructor.
Qed.

Section ImportFacts.
Context (H : Host) (config : ResolvedConfig) (es : list string).

Lemma crawlEdge_change st e st' :
  crawlEdge H config es st e = Some st' ->
  Change H config st (edgeArgs e) st'.
Proof.
  unfold crawlEdge.
  destruct (onResolve H config es st (edgeArgs e)) as [res st1] eqn:Hr.
  apply onResolve_change in Hr. destruct Hr as (Hc & _).
  assert (Hload : forall p ns,
    snd <$> onLoad H config st1 (edgeBuild e) p ns = Some st' ->
    Change H config st (edgeArgs e) st').
  { intros p ns Hl.
    destruct (onLoad H config st1 (edgeBuild e) p ns) as [[r st2]|] eqn:Hl';
      simpl in Hl; [|discriminate].
    injection Hl as <-. apply onLoad_deps in Hl'. destruct Hl' as [Hd Hm].
    destruct Hc as [Hd' Hm'|r0 Ht He Hg Hd' Hm'|He Hg Hd' Hm'].
    - apply Unchanged; congruence.
    - eapply Recorded; eauto; congruence.
    - apply Missed; congruence. }
  destruct res as [r|]; [|eauto].
  destruct (external r); [|eauto]. now intros [= <-].
Qed.

Lemma crawlEdges_imported crawl : forall st st',
  crawlEdges H config es st crawl = Some st' ->
  (forall k, In k (keys (depImports st')) ->
     In k (keys (depImports st))
     \/ exists e, In e crawl /\ path (edgeArgs e) = k)
  /\ (forall k v, In (k, v) (missing st') ->
        In (k, v) (missing st)
        \/ exists e, In e crawl /\ path (edgeArgs e) = k
                     /\ v = normalizePath H (importer (edgeArgs e))).
Proof.
  induction crawl as [|e crawl IH]; intros st st'; cbn [crawlEdges].
  - intros [= <-]. split; auto.
  - destruct (crawlEdge H config es st e) as [st1|] eqn:He;
      cbn [mbind option_bind]; [|discriminate].
    intros Hrun. apply IH in Hrun. destruct Hrun as [Hk Hm].
    apply crawlEdge_change in He.
    split.
    + intros k Hin. apply Hk in Hin.
      destruct Hin as [Hin|(e' & Hin & Hp)]; [|right; exists e'; split; [now right|exact Hp]].
      destruct He as [Hd _|r _ _ _ Hd _|_ _ Hd _]; rewrite Hd in Hin; [now left| |now left].
      apply In_keys_set in Hin. destruct Hin as [->|Hin]; [|now left].
      right. exists e. split; [now left|reflexivity].
    + intros k v Hin. apply Hm in Hin.
      destruct Hin as [Hin|(e' & Hin & Hp)]; [|right; exists e'; split; [now right|exact Hp]].
      destruct He as [_ Hd|r _ _ _ _ Hd|_ _ _ Hd]; rewrite Hd in Hin; [now left|now left|].
      apply In_set in Hin. destruct Hin as [[= -> ->]|Hin]; [|now left].
      right. exists e. split; [now left|split; reflexivity].
Qed.

End ImportFacts.

(** X10. A scan records nothing that the crawl did not meet: every key of
    the returned [deps] is the specifier of an import edge of the crawl,
    and every entry of the returned [missing] maps the specifier of an edge
    to the normalized path of the importer of that edge. *)
Theorem recorded_specifiers_were_imported (H : Host) (config : ResolvedConfig)
    (crawl : list Edge) (r : ScanResult.t) (evs : list Event) :
  scanImports H config crawl = (Returns r, evs) ->
  (forall k, In k (keys (ScanResult.deps r)) ->
     exists e, In e crawl /\ path (edgeArgs e) = k)
  /\ (forall k v, In (k, v) (ScanResult.missing r) ->
        exists e, In e crawl /\ path (edgeArgs e) = k
                  /\ v = normalizePath H (importer (edgeArgs e))).
Proof.
  intros Hs. apply scanImports_returns in Hs.
  destruct Hs as [->|(es & st & Hc & Hd & Hm)]; [split; intros; contradiction|].
  apply crawlEdges_imported in Hc. destruct Hc as [Hk Hmiss].
  destruct (launch_records es) as (Hd0 & Hm0 & _). rewrite Hd0, Hm0 in *.
  split.
  - intros k Hin. rewrite Hd in Hin. apply orderedDependencies_keys in Hin.
    apply Hk in Hin. destruct Hin as [[]|Hin]. exact Hin.
  - intros k v Hin. rewrite Hm in Hin.
    apply Hmiss in Hin. destruct Hin as [[]|Hin]. exact Hin.
Qed.

(** X11. Whatever the outcome of a scan, every crawl that it launched is the
    crawl of a discovered entry that is scannable and exists on disk; the
    hooks launch none. *)
Theorem crawls_are_scannable_entries (H : Host) (config : ResolvedConfig)
    (crawl : list Edge) (out : Outcome) (evs : list Event) (e : string) :
  scanImports H config crawl = (out, evs) ->
  In (Build e) evs ->
  isScannable H e = true /\ existsSync H e = true
  /\ exists found, discoverEntries H config = inr found /\ In e found.
Proof.
  unfold scanImports.
  destruct (discoverEntries H config) as [err|found] eqn:Hd; [intros [= _ <-] []|].
  destruct (scannableEntries H found) as [|e0 es0] eqn:Hes.
  { intros [= _ <-]. destruct (_ && _); simpl; [intros [Hw|[]]; discriminate|tauto]. }
  assert (Hlaunch : In (Build e) (events (launch (e0 :: es0))) ->
    isScannable H e = true /\ existsSync H e = true
    /\ exists found0, @inr Error _ found = inr found0 /\ In e found0).
  { rewrite launch_events, in_map_iff. intros (x & [= ->] & Hin).
    rewrite <- Hes in Hin. unfold scannableEntries in Hin.
    apply List.filter_In in Hin. destruct Hin as [Hin Hok].
    apply andb_prop in Hok. destruct Hok as [Hsc Hex].
    split; [exact Hsc|]. split; [exact Hex|]. now exists found. }
  destruct (crawlEdges H config (e0 :: es0) (launch (e0 :: es0)) crawl)
    as [st|] eqn:Hc.
  - intros [= _ <-] Hin. apply Hlaunch.
    apply crawlEdges_scripts in Hc. destruct Hc as [Hb _]. now apply Hb.
  - intros [= _ <-]. exact Hlaunch.
Qed.

Lemma scanImports_invalid H config crawl msg evs :
  scanImports H config crawl = (Throws (InvalidInput msg), evs) ->
  discoverEntries H config = inl (InvalidInput msg).
Proof.
  unfold scanImports. destruct (discoverEntries H config) as [e|found].
  - now intros [= -> _].
  - destruct (scannableEntries H found); [discriminate|].
    destruct (crawlEdges _ _ _ _ _); discriminate.
Qed.

(** X12. [scanImports] throws the error about [rollupOptions.input] exactly
    when there are no explicit entry patterns and the build input is a
    truthy value that is neither a string, an array nor an object: with
    explicit entries an invalid build input is never looked at. *)
Theorem invalid_input_only (H : Host) (config : ResolvedConfig) (crawl : list Edge) :
  (exists msg evs, scanImports H config crawl = (Throws (InvalidInput msg), evs))
  <-> truthyPatterns (entries (optimizeDeps config)) = false
      /\ rollupInput config = Some (InputOther true).
Proof.
  split.
  - intros (msg & evs & Hs). apply scanImports_invalid in Hs.
    revert Hs. unfold discoverEntries.
    destruct (truthyPatterns (entries (optimizeDeps config))); [discriminate|].
    destruct (rollupInput config) as [[s|l|o|[|]]|]; cbn [truthyInput];
      try discriminate; [|now split].
    destruct (truthy s); discriminate.
  - intros [Hp Hi]. eexists. exists []. unfold scanImports, discoverEntries.
    rewrite Hp, Hi. reflexivity.
Qed.

Lemma getOwn_perm {V} (o o' : JsObject V) k :
  List.NoDup (keys o) -> Permutation o o' -> getOwn o' k = getOwn o k.
Proof.
  intros Hnd Hp.
  assert (Hnd' : List.NoDup (keys o')).
  { eapply Permutation_NoDup; [|exact Hnd]. unfold keys. now apply Permutation_map. }
  destruct (getOwn o k) as [v|] eqn:Hg.
  - apply In_getOwn; [exact Hnd'|].
    eapply Permutation_in; [exact Hp|]. now apply getOwn_Some_In.
  - apply getOwn_None. apply getOwn_None in Hg. intros Hin. apply Hg.
    unfold keys in *. eapply Permutation_in; [|exact Hin].
    apply Permutation_map. now symmetry.
Qed.

(** X13. [orderedDependencies] neither loses nor changes an entry: on an
    object (a list of properties without a repeated key) the ordered copy
    has as many properties, and reading any key gives the same result as on
    the original. *)
Theorem orderedDependencies_lookup (H : Host) (o : JsObject string) (k : string) :
  List.NoDup (keys o) ->
  getOwn (orderedDependencies H o) k = getOwn o k
  /\ List.length (orderedDependencies H o) = List.length o.
Proof.
  intros Hnd. pose proof (orderedDependencies_perm H o Hnd) as Hp. split.
  - apply getOwn_perm; [exact Hnd|now symmetry].
  - now apply Permutation_length.
Qed.

(** X14. Ordering an ordered copy again changes nothing: on an object whose
    keys [localeCompare] does not tie, [orderedDependencies] is idempotent.
    The first hypothesis is that [localeCompare] is a consistent
    comparator. *)
Theorem orderedDependencies_idempotent (H : Host) (o : JsObject string) :
  Consistent (localeCompare H) ->
  List.NoDup (keys o) ->
  NoTies (localeCompare H) (keys o) ->
  orderedDependencies H (orderedDependencies H o) = orderedDependencies H o.
Proof.
  intros Hcons Hnd Hties. symmetry.
  apply orderedDependencies_unique; auto.
  symmetry. now apply orderedDependencies_perm.
Qed.

(** *** The filters of the hooks *)

(** X15. The filter of the bare-import hook matches exactly the specifiers
    of at least two characters whose first character is a word character
    or [@] and whose second character is not a colon. A relative or
    absolute path, a Windows volume and a specifier of one character do not
    pass it. *)
Theorem bareImportRE_spec (s : string) :
  test false bareImportRE s = true
  <-> exists a b rest,
        s = String a (String b rest)
        /\ (isWord a = true \/ a = "@"%char) /\ b <> ":"%char.
Proof.
  rewrite bare_filter. split.
  - destruct s as [|a [|b rest]]; try discriminate.
    intros Hb. apply andb_prop in Hb. destruct Hb as [Ha Hb].
    exists a, b, rest. split; [reflexivity|]. split.
    + apply orb_prop in Ha. destruct Ha as [Ha|Ha]; [now left|right].
      now apply Ascii.eqb_eq.
    + apply negb_true_iff in Hb. now apply Ascii.eqb_neq.
  - intros (a & b & rest & -> & Ha & Hb).
    apply andb_true_intro. split.
    + apply orb_true_intro. destruct Ha as [Ha| ->]; [now left|right].
      apply Ascii.eqb_refl.
    + apply negb_true_iff. now apply Ascii.eqb_neq.
Qed.

(** X16. The pattern [htmlTypesRE] tests the extension of a path: it matches
    exactly the paths that end in [.html], [.vue], [.svelte], [.astro] or
    [.imba]. *)
Theorem htmlTypesRE_extensions (p : string) :
  test false htmlTypesRE p
  = existsb (endsWith p) [".html"; ".vue"; ".svelte"; ".astro"; ".imba"].
Proof.
  exact (test_extension "html" ["vue"; "svelte"; "astro"; "imba"] p).
Qed.

(** X17. The filter of the hook for styles, JSON and WebAssembly tests the
    extension of the specifier: it matches exactly the specifiers that end
    in one of its eleven extensions. *)
Theorem cssJsonWasmRE_extensions (p : string) :
  test false cssJsonWasmRE p
  = existsb (endsWith p)
      [ ".css"; ".less"; ".sass"; ".scss"; ".styl"; ".stylus"; ".pcss";
        ".postcss"; ".sss"; ".json"; ".wasm" ].
Proof.
  exact (test_extension "css"
           ["less"; "sass"; "scss"; "styl"; "stylus"; "pcss"; "postcss"; "sss";
            "json"; "wasm"] p).
Qed.

(** *** [importsRE] and [extractImportPaths] *)

Lemma length_append (a b : string) :
  String.length (a ++ b) = String.length a + String.length b.
Proof.
  induction a as [|x a IH]; [reflexivity|].
  change (S (String.length (a ++ b)) = S (String.length a + String.length b)).
  now rewrite IH.
Qed.

Lemma takeString_app t s : takeString (String.length t) (t ++ s) = t.
Proof.
  induction t as [|x t IH]; [now destruct s|].
  change (String x (takeString (String.length t) (t ++ s)) = String x t).
  now rewrite IH.
Qed.

(** The text between a position and a later one. *)
Lemma consumed_app t s : consumed (t ++ s) s = t.
Proof.
  unfold consumed. rewrite length_append.
  replace (String.length t + String.length s - String.length s)
    with (String.length t) by lia.
  apply takeString_app.
Qed.

Lemma revString_app_acc a b acc :
  revString (a ++ b) acc = revString b (revString a acc).
Proof.
  revert acc. induction a as [|x a IH]; intros acc; [reflexivity|].
  change (revString (a ++ b) (String x acc) = revString b (revString a (String x acc))).
  apply IH.
Qed.


Section AssertionFacts.
Import Assertions.

Lemma starGreedy_Matches {R : Type} c cs :
  forall s b (k : string -> string -> option R) x,
  starGreedy c b s k = Some x ->
  exists b' s', Matches (Star c) b s cs b' s' cs /\ k b' s' = Some x.
Proof.
  induction s as [|a s IH]; intros b k x; cbn [starGreedy].
  - intros Hk. exists b, "". split; [constructor|exact Hk].
  - destruct (clsMatch false c a) eqn:Hc.
    + destruct (starGreedy c (String a b) s k) as [y|] eqn:Hs.
      * intros [= <-]. apply IH in Hs. destruct Hs as (b' & s' & Hm & Hk).
        exists b', s'. split; [now apply M_StarStep|exact Hk].
      * intros Hk. exists b, (String a s). split; [constructor|exact Hk].
    + intros Hk. exists b, (String a s). split; [constructor|exact Hk].
Qed.

(** A successful run follows a match of the pattern and hands its end to the
    continuation. *)
Lemma run_Matches {R : Type} r : forall b s cs (k : @Cont R) x,
  run r b s cs k = Some x ->
  exists b' s' cs', Matches r b s cs b' s' cs' /\ k b' s' cs' = Some x.
Proof.
  induction r as [|c|r1 IH1 r2 IH2|r1 IH1 r2 IH2|c|i r1 IH1|p|p|p|p];
    intros b s cs k x; cbn [run].
  - intros Hk. exists b, s, cs. split; [constructor|exact Hk].
  - destruct s as [|a s]; [discriminate|].
    destruct (clsMatch false c a) eqn:Hc; [|discriminate].
    intros Hk. exists (String a b), s, cs. split; [now constructor|exact Hk].
  - intros Hr. apply IH1 in Hr. destruct Hr as (b1 & s1 & cs1 & Hm1 & Hr).
    apply IH2 in Hr. destruct Hr as (b2 & s2 & cs2 & Hm2 & Hk).
    exists b2, s2, cs2. split; [econstructor; eauto|exact Hk].
  - destruct (run r1 b s cs k) as [y|] eqn:H1.
    + intros [= <-]. apply IH1 in H1. destruct H1 as (b1 & s1 & cs1 & Hm & Hk).
      exists b1, s1, cs1. split; [now apply M_AltL|exact Hk].
    + intros H2. apply IH2 in H2. destruct H2 as (b1 & s1 & cs1 & Hm & Hk).
      exists b1, s1, cs1. split; [now apply M_AltR|exact Hk].
  - intros Hs. apply (starGreedy_Matches c cs) in Hs.
    destruct Hs as (b' & s' & Hm & Hk). now exists b', s', cs.
  - intros Hr. apply IH1 in Hr. destruct Hr as (b1 & s1 & cs1 & Hm & Hk).
    eexists b1, s1, _. split; [constructor; exact Hm|exact Hk].
  - destruct (ahead p b s) eqn:Ha; [|discriminate].
    intros Hk. exists b, s, cs. split; [now constructor|exact Hk].
  - destruct (ahead p b s) eqn:Ha; [discriminate|].
    intros Hk. exists b, s, cs. split; [now constructor|exact Hk].
  - destruct (behind p b s) eqn:Ha; [|discriminate].
    intros Hk. exists b, s, cs. split; [now constructor|exact Hk].
  - destruct (behind p b s) eqn:Ha; [discriminate|].
    intros Hk. exists b, s, cs. split; [now constructor|exact Hk].
Qed.

(** A match consumes a text of the pattern. *)
Lemma Matches_text r b s cs b' s' cs' :
  Matches r b s cs b' s' cs' ->
  exists t, s = t ++ s' /\ b' = revString t b /\ Text r t cs cs'.
Proof.
  induction 1 as [b s cs|c a b s cs Hc
                 |r1 r2 b s cs b1 s1 cs1 b2 s2 cs2 _ IH1 _ IH2
                 |r1 r2 b s cs b' s' cs' _ IH|r1 r2 b s cs b' s' cs' _ IH
                 |c b s cs|c a b s cs b' s' cs' Hc _ IH
                 |i r b s cs b' s' cs' _ IH
                 |p b s cs Ha|p b s cs Ha|p b s cs Ha|p b s cs Ha];
    cbn [Text].
  - now exists "".
  - exists (String a ""). repeat split. now exists a.
  - destruct IH1 as (t1 & -> & -> & Ht1), IH2 as (t2 & -> & -> & Ht2).
    exists (t1 ++ t2). rewrite append_assoc, revString_app_acc.
    repeat split. now exists t1, t2, cs1.
  - destruct IH as (t & -> & -> & Ht). exists t. auto.
  - destruct IH as (t & -> & -> & Ht). exists t. auto.
  - now exists "".
  - destruct IH as (t & -> & -> & Ht & Hcs). exists (String a t).
    repeat split; [|exact Hcs]. cbn [allOf]. now rewrite Hc.
  - destruct IH as (t & -> & -> & Ht). exists t. repeat split.
    exists cs'. now rewrite consumed_app.
  - now exists "".
  - now exists "".
  - now exists "".
  - now exists "".
Qed.

Lemma Text_minLen r : forall t cs cs', Text r t cs cs' -> minLen r <= String.length t.
Proof.
  induction r as [|c|r1 IH1 r2 IH2|r1 IH1 r2 IH2|c|i r1 IH1|p|p|p|p];
    intros t cs cs'; cbn [Text minLen]; try lia.
  - intros ((a & -> & _) & _). simpl. lia.
  - intros (t1 & t2 & cs1 & -> & H1 & H2). rewrite length_append.
    apply IH1 in H1. apply IH2 in H2. lia.
  - intros [H1|H2]; [apply IH1 in H1|apply IH2 in H2]; lia.
  - intros (cs1 & H1 & _). now apply IH1 in H1.
Qed.

(** The text of a literal. *)
Lemma Text_str w : forall t cs cs', Text (str w) t cs cs' -> t = w /\ cs' = cs.
Proof.
  assert (Hchr : forall c t cs cs',
            Text (chr c) t cs cs' -> t = String c "" /\ cs' = cs).
  { intros c t cs cs' ((a & -> & Ha) & ->). split; [|reflexivity].
    cbn [clsMatch existsb atomMatch] in Ha. rewrite orb_false_r in Ha.
    apply Ascii.eqb_eq in Ha. now subst. }
  induction w as [|c w IH]; intros t cs cs'; [now intros [-> ->]|].
  destruct w as [|d w]; [apply Hchr|].
  change (str (String c (String d w))) with (Seq (chr c) (str (String d w))).
  cbn [Text]. intros (t1 & t2 & cs1 & -> & H1 & H2).
  apply Hchr in H1. destruct H1 as [-> ->].
  apply IH in H2. destruct H2 as [-> ->]. now split.
Qed.

(** A match found by [exec] starts after some text that is skipped and is a
    match of the pattern. *)
Lemma exec_Matches r : forall s b m,
  exec r b s = Some m ->
  Text r (text m) [] (captures m)
  /\ exists skipped,
       s = skipped ++ text m ++ rest m
       /\ Matches r (revString skipped b) (text m ++ rest m) [] (beforeRest m)
            (rest m) (captures m).
Proof.
  assert (Hhere : forall s b b' s' cs,
    run r b s [] (fun b' s' cs => Some (b', s', cs)) = Some (b', s', cs) ->
    Text r (consumed s s') [] cs
    /\ exists skipped,
         s = skipped ++ consumed s s' ++ s'
         /\ Matches r (revString skipped b) (consumed s s' ++ s') [] b' s' cs).
  { intros s b b' s' cs Hr. apply run_Matches in Hr.
    destruct Hr as (b1 & s1 & cs1 & Hm & [= -> -> ->]).
    destruct (Matches_text _ _ _ _ _ _ _ Hm) as (t & -> & _ & Ht).
    rewrite consumed_app. split; [exact Ht|]. exists "". now split. }
  induction s as [|a s IH]; intros b m; cbn [exec].
  - destruct (run r b "" [] _) as [[[b' s'] cs]|] eqn:Hr; [|discriminate].
    intros [= <-]. cbn [text captures beforeRest rest]. now apply Hhere.
  - destruct (run r b (String a s) [] _) as [[[b' s'] cs]|] eqn:Hr.
    + intros [= <-]. cbn [text captures beforeRest rest]. now apply Hhere.
    + intros He. apply IH in He. destruct He as (HT & skipped & Hs & Hm).
      split; [exact HT|]. exists (String a skipped). split; [|exact Hm].
      change (String a s = String a (skipped ++ text m ++ rest m)). now f_equal.
Qed.

End AssertionFacts.

Section ImportsREFacts.
Import Assertions Imports.

Lemma Text_plus c t cs cs' :
  Text (plus c) t cs cs' -> t <> "" /\ allOf c t = true /\ cs' = cs.
Proof.
  cbn [plus Text]. intros (t1 & t2 & cs1 & -> & ((a & -> & Ha) & ->) & Hs & ->).
  split; [discriminate|]. split; [|reflexivity].
  change (String a "" ++ t2) with (String a t2). cbn [allOf]. now rewrite Ha.
Qed.

Lemma Text_quoted c t cs cs' :
  Text (quoted c) t cs cs' ->
  cs' = cs
  /\ exists body, t = String c (body ++ String c "") /\ body <> ""
                  /\ allOf (NoneOf [Chr c]) body = true.
Proof.
  unfold quoted. cbn [cat]. cbn [Text].
  intros (t1 & t2 & cs1 & -> & H1 & t3 & t4 & cs2 & -> & H2 & H3).
  apply (Text_str (String c "")) in H1. destruct H1 as [-> ->].
  apply Text_plus in H2. destruct H2 as (Hne & Hall & ->).
  apply (Text_str (String c "")) in H3. destruct H3 as [-> ->].
  split; [reflexivity|]. now exists t3.
Qed.

(** The text and the captures of a match of [importsRE]. *)
Lemma importsRE_text t cs' :
  Text importsRE t [] cs' ->
  exists pre q post,
    t = pre ++ q ++ post /\ quotedSpecifier q /\ cs' = [(1, q)]
    /\ 9 <= String.length t.
Proof.
  intros HT. pose proof (Text_minLen _ _ _ _ HT) as Hlen.
  change (minLen importsRE) with 9 in Hlen.
  revert HT. unfold importsRE. cbn [cat]. cbn [Text].
  intros (t1 & r1 & c1 & -> & [-> ->] & t2 & r2 & c2 & -> & [-> ->]
          & t3 & r3 & c3 & -> & [H3 ->] & t4 & r4 & c4 & -> & H4
          & t5 & r5 & c5 & -> & [-> ->] & t6 & r6 & c6 & -> & H6
          & t7 & r7 & c7 & -> & [H7 ->] & t8 & r8 & c8 & -> & (c9 & H8 & ->)
          & t9 & r9 & c10 & -> & [H9 ->] & [-> ->]).
  apply (Text_str "import") in H4. destruct H4 as [-> ->].
  assert (Hc6 : c6 = []).
  { destruct H6 as [(u & v & cu & -> & Hu & Hv)|[-> ->]]; [|reflexivity].
    apply Text_plus in Hu. destruct Hu as (_ & _ & ->).
    apply (Text_str "from") in Hv. now destruct Hv. }
  subst c6.
  assert (Hq : c9 = [] /\ quotedSpecifier t8).
  { destruct H8 as [H8|H8]; apply Text_quoted in H8;
      destruct H8 as (-> & body & -> & Hne & Hall); (split; [reflexivity|]).
    - exists dquote, body. now repeat split; auto.
    - exists "'"%char, body. now repeat split; auto. }
  destruct Hq as [-> Hq].
  exists ("" ++ "" ++ t3 ++ "import" ++ "" ++ t6 ++ t7), t8, (t9 ++ "").
  split; [|now repeat split].
  rewrite !append_assoc. reflexivity.
Qed.

(** Where a match of [importsRE] starts, [import] follows some white space,
    and the assertion on [type] fails after it. *)
Lemma importsRE_import b s b' s' cs' :
  Matches importsRE b s [] b' s' cs' ->
  exists sp b4 s4,
    s = sp ++ "import" ++ s4
    /\ ahead (PSeq (pplus (OneOf [Space])) (pstr "type")) b4 s4 = false.
Proof.
  unfold importsRE. cbn [cat]. intros Hm.
  inversion Hm as [| |? ? ? ? ? b1 s1 cs1 ? ? ? H1 Hm1| | | | | | | | |]; subst; clear Hm.
  inversion H1; subst; clear H1.
  inversion Hm1 as [| |? ? ? ? ? b2 s2 cs2 ? ? ? H2 Hm2| | | | | | | | |]; subst; clear Hm1.
  inversion H2; subst; clear H2.
  inversion Hm2 as [| |? ? ? ? ? b3 s3 cs3 ? ? ? H3 Hm3| | | | | | | | |]; subst; clear Hm2.
  inversion Hm3 as [| |? ? ? ? ? b4 s4 cs4 ? ? ? H4 Hm4| | | | | | | | |]; subst; clear Hm3.
  inversion Hm4 as [| |? ? ? ? ? b5 s5 cs5 ? ? ? H5 Hm5| | | | | | | | |]; subst; clear Hm4.
  inversion H5; subst; clear H5.
  apply Matches_text in H3. destruct H3 as (sp & -> & _ & _).
  apply Matches_text in H4. destruct H4 as (ti & -> & _ & Hi).
  apply (Text_str "import") in Hi. destruct Hi as [-> _].
  now exists sp, b5, s5.
Qed.

End ImportsREFacts.

Section LoopFacts.
Import Assertions Imports.

(** What [exec] finds of [importsRE]. *)
Lemma exec_importsRE b s m :
  exec importsRE b s = Some m ->
  (exists pre q post,
     text m = pre ++ q ++ post /\ quotedSpecifier q /\ captures m = [(1, q)]
     /\ 9 <= String.length (text m))
  /\ (exists skipped, s = skipped ++ text m ++ rest m)
  /\ (exists pre b4 s4,
        s = pre ++ "import" ++ s4
        /\ ahead (PSeq (pplus (OneOf [Space])) (pstr "type")) b4 s4 = false).
Proof.
  intros He. apply exec_Matches in He. destruct He as (HT & skipped & Hs & Hm).
  split; [now apply importsRE_text|]. split; [now exists skipped|].
  apply importsRE_import in Hm. destruct Hm as (sp & b4 & s4 & Hsp & Ha).
  exists (skipped ++ sp), b4, s4. split; [|exact Ha].
  now rewrite Hs, Hsp, !append_assoc.
Qed.

(** The loop ends: a match of [importsRE] is not empty, so every turn
    leaves less of the code. *)
Lemma importLoop_total : forall fuel b s js,
  String.length s < fuel -> is_Some (importLoop fuel b s js).
Proof.
  induction fuel as [|fuel IH]; intros b s js Hlt; [lia|].
  cbn [importLoop]. destruct (exec importsRE b s) as [m|] eqn:He; [|eauto].
  apply exec_importsRE in He.
  destruct He as ((pre & q & post & _ & _ & _ & Hlen) & (skipped & Hs) & _).
  destruct (text m) as [|c t] eqn:Ht; [simpl in Hlen; lia|].
  apply IH. rewrite Hs, !length_append in Hlt. simpl in Hlt. lia.
Qed.



Lemma pstar_trim c (k : string -> string -> bool) :
  (forall a, clsMatch false c a = isSpace a) ->
  forall s b, (forall b', k b' (trimStart s) = true) -> pstar c b s k = true.
Proof.
  intros Hc. induction s as [|a s IH]; intros b Hk; cbn [pstar].
  - cbn [trimStart] in Hk. now rewrite (Hk b).
  - cbn [trimStart] in Hk. rewrite Hc. destruct (isSpace a).
    + rewrite IH by exact Hk. apply orb_true_r.
    + now rewrite (Hk b).
Qed.

Lemma followedByType_ahead b s :
  followedByType s = true ->
  ahead (PSeq (pplus (OneOf [Space])) (pstr "type")) b s = true.
Proof.
  unfold followedByType. destruct s as [|a s]; [discriminate|].
  intros Hf. apply andb_prop in Hf. destruct Hf as [Ha Ht].
  cbn [trimStart] in Ht. rewrite Ha in Ht.
  unfold ahead, pplus. cbn [accepts clsMatch existsb atomMatch].
  rewrite Ha. cbn [orb andb].
  apply pstar_trim; [intros x; cbn [clsMatch existsb atomMatch]; apply orb_false_r|].
  intros b'. apply startsWith_split in Ht. rewrite Ht.
  cbv [pstr pchr]. cbn [accepts clsMatch existsb atomMatch String.length dropString].
  set (r := dropString 4 (trimStart s)).
  change ("type" ++ r) with (String "t" (String "y" (String "p" (String "e" r)))).
  reflexivity.
Qed.

Lemma typeOnly_suffix pre : forall s, typeOnly (pre ++ s) = true -> typeOnly s = true.
Proof.
  induction pre as [|c pre IH]; intros s; [auto|].
  change (String c pre ++ s) with (String c (pre ++ s)). cbn [typeOnly].
  intros Ht. apply andb_prop in Ht. destruct Ht as [_ Ht]. auto.
Qed.

(** Where [import] is only followed by white space and [type], [importsRE]
    finds nothing. *)
Lemma exec_typeOnly b s : typeOnly s = true -> exec importsRE b s = None.
Proof.
  intros Ht. destruct (exec importsRE b s) as [m|] eqn:He; [|reflexivity].
  apply exec_importsRE in He. destruct He as (_ & _ & pre & b4 & s4 & -> & Ha).
  apply typeOnly_suffix in Ht.
  assert (Hf : followedByType s4 = true).
  { destruct ("import" ++ s4) as [|c r] eqn:Hi; [discriminate|].
    cbn [typeOnly] in Ht. rewrite <- Hi in Ht.
    rewrite startsWith_app in Ht.
    change (dropString 6 ("import" ++ s4)) with s4 in Ht.
    apply andb_prop in Ht. now destruct Ht. }
  rewrite (followedByType_ahead b4 s4 Hf) in Ha. discriminate.
Qed.

End LoopFacts.

(** X18. [extractImportPaths] returns for every code: a match of
    [importsRE] holds at least nine characters, so the loop over the matches
    leaves less of the code at every turn, and its guard against a match of
    no character never has to move [lastIndex]. *)
Theorem extractImportPaths_terminates (f g : string -> string) (code : string) :
  (exists js, Imports.extractImportPaths f g code = Some js)
  /\ (forall b s m,
        Assertions.exec Imports.importsRE b s = Some m ->
        9 <= String.length (Assertions.text m)).
Proof.
  split.
  - unfold Imports.extractImportPaths.
    destruct (importLoop_total (S (String.length (g (f code)))) "" (g (f code)) "")
      as [js Hjs]; [lia|]. now exists js.
  - intros b s m He. apply exec_importsRE in He.
    now destruct He as ((pre & q & post & _ & _ & _ & Hlen) & _).
Qed.


(** X20. When, in the code whose comments are replaced, every occurrence of
    [import] is followed by white space and then [type], in particular when
    [import] does not occur, [extractImportPaths] returns the empty
    string: a type-only import is not recovered. *)
Theorem type_only_imports_skipped (f g : string -> string) (code : string) :
  typeOnly (g (f code)) = true ->
  Imports.extractImportPaths f g code = Some "".
Proof.
  intros Ht. unfold Imports.extractImportPaths. cbn [Imports.importLoop].
  now rewrite exec_typeOnly.
Qed.

(* ================================================================== *)
(** ** The properties on the example project *)
(* ================================================================== *)

Import Example.

Lemma C1_witness :
  exists idx names,
    keys (ScanResult.deps sortedResult) = (idx ++ names)%list
    /\ Forall (fun k => isArrayIndex k = true) idx
    /\ Forall (fun k => isArrayIndex k = false) names
    /\ StronglySorted indexLe idx
    /\ StronglySorted (fun a b => (localeCompare host a b <= 0)%Z) names.
Proof.
  refine (proj1 (C1_deps_order host config sortedCrawl
                   sortedResult sortedEvents
                   codeUnitCompare_consistent _)).
  vm_compute. reflexivity.
Defined.

Lemma C1_counterexample :
  scanImports host config numericCrawl = (Returns numericResult, numericEvents)
  /\ keys (ScanResult.deps numericResult) = ["20"; "100"]
  /\ (localeCompare host "100" "20" < 0)%Z
  /\ ~ StronglySorted (fun a b => String.leb a b = true)
         (keys (ScanResult.deps numericResult)).
Proof.
  split; [vm_compute; reflexivity|]. split; [reflexivity|].
  split; [vm_compute; reflexivity|].
  intros Hs. inversion Hs as [|a l _ Hall]; subst.
  inversion Hall as [|b l' Hle _]; subst. vm_compute in Hle. discriminate.
Qed.

Lemma C2_witness :
  exists evs,
    scanImports emptyHost config [] = (Returns emptyResult, evs)
    /\ (forall entry, ~ In (Build entry) evs)
    /\ (In (Warn noEntryWarning) evs <->
        truthyPatterns (entries (optimizeDeps config)) = false
        /\ include (optimizeDeps config) = None).
Proof.
  apply (C2_no_entries emptyHost config [] []); reflexivity.
Defined.


Lemma C4_witness :
  exists st',
    onResolve host config scanEntries (launch scanEntries) (argsOf "react" main)
    = (Some (externalUnlessEntry scanEntries "react"), st')
    /\ (isOptimizable host reactPath (optimizeDeps config) = true ->
        getOwn (depImports st') "react" = Some reactPath)
    /\ (isOptimizable host reactPath (optimizeDeps config) = false ->
        depImports st' = depImports (launch scanEntries))
    /\ missing st' = missing (launch scanEntries)
    /\ (existsb (String.eqb "react") scanEntries = false ->
        crawlEdge host config scanEntries (launch scanEntries) (edge "react" main)
        = Some st').
Proof.
  apply (C4_dependency_recorded host config scanEntries []
           (launch scanEntries) 0 "react" main None reactPath);
    first [vm_compute; reflexivity | vm_compute; discriminate].
Defined.

Lemma C4_counterexample :
  bareSpecifier host "ui-kit/Button.vue" = true
  /\ resolveId host "ui-kit/Button.vue" (Some main) None = Some buttonPath
  /\ shouldExternalizeDep host buttonPath "ui-kit/Button.vue" = false
  /\ includes buttonPath "node_modules" = true
  /\ fst (onResolve host config scanEntries (launch scanEntries)
            (argsOf "ui-kit/Button.vue" main))
     = Some {| resolvedPath := buttonPath; external := false;
               namespace := Some "html" |}
  /\ option_map events
       (crawlEdge host config scanEntries (launch scanEntries)
          (edge "ui-kit/Button.vue" main))
     = Some [ Build "/project/index.html";
              ResolveId "ui-kit/Button.vue" (Some main);
              ReadFile buttonPath ]
  /\ bareSpecifier host "@vite/client" = true
  /\ resolveId host "@vite/client" (Some main) None = Some clientPath
  /\ shouldExternalizeDep host clientPath "@vite/client" = false
  /\ includes clientPath "node_modules" = true
  /\ isOptimizable host clientPath (optimizeDeps config) = true
  /\ scanImports host config [edge "@vite/client" main]
     = (Returns emptyResult, [Build "/project/index.html"]).
Proof. repeat split; vm_compute; reflexivity. Qed.




Lemma C7_witness :
  onResolve host config scanEntries (launch scanEntries) (argsOf remoteUrl main)
  = (Some (externalResult remoteUrl), launch scanEntries)
  /\ crawlEdge host config scanEntries (launch scanEntries) (edge remoteUrl main)
     = Some (launch scanEntries).
Proof.
  apply (proj1 (C7_remote_url_external host config remoteUrl eq_refl)
           scanEntries (launch scanEntries) 0 main None).
Defined.



Lemma C9_witness :
  scanImports host invalidInputConfig []
  = (Throws (InvalidInput "invalid rollupOptions.input value."), []).
Proof.
  apply (C9_invalid_build_input host invalidInputConfig []); reflexivity.
Defined.

Lemma C10_witness :
  pluginExclude config
  = (default [] (exclude (optimizeDeps config)) ++ ["@vite/client"; "@vite/env"])%list
  /\ forall id, id = "@vite/client" \/ id = "@vite/env" ->
     (forall es st imp pd,
        exists r,
          onResolve host config es st {| path := id; importer := imp; pluginData := pd |}
          = (Some r, st)
          /\ resolvedPath r = id /\ namespace r = None
          /\ (existsb (String.eqb id) es = false -> external r = true))
     /\ (forall crawl r evs,
           scanImports host config crawl = (Returns r, evs) ->
           ~ In id (keys (ScanResult.deps r))).
Proof.
  apply (C10_vite_client_excluded host config). exact contains_In.
Defined.

(** *** The further properties on the example projects *)


Lemma entries_are_crawled_witness :
  existsb (String.eqb Demo.entry) scanEntries = true
  /\ fst (onResolve Demo.host config scanEntries (launch scanEntries) Demo.entryArgs)
     = Some Demo.entryResult
  /\ external Demo.entryResult = false.
Proof.
  split; [reflexivity|]. split; [vm_compute; reflexivity|].
  apply (entries_are_crawled Demo.host config scanEntries (launch scanEntries)
           Demo.entryArgs Demo.entryResult
           (snd (onResolve Demo.host config scanEntries (launch scanEntries)
                   Demo.entryArgs)));
    vm_compute; reflexivity.
Defined.

Lemma linked_package_crawled_witness :
  exists st',
    onResolve Demo.host config scanEntries (launch scanEntries) (argsOf "my-lib" main)
    = (Some (if isScannable Demo.host Demo.linkedPath
             then {| resolvedPath := path_resolve Demo.host [Demo.linkedPath];
                     external := false; namespace := namespaceOf Demo.linkedPath |}
             else externalUnlessEntry scanEntries "my-lib"), st')
    /\ depImports st' = depImports (launch scanEntries)
    /\ missing st' = missing (launch scanEntries)
    /\ scripts st' = scripts (launch scanEntries).
Proof.
  apply (linked_package_crawled Demo.host config scanEntries (launch scanEntries)
           "my-lib" main None Demo.linkedPath);
    vm_compute; reflexivity.
Defined.

Lemma virtual_module_round_trip_witness :
  onResolve Demo.host config scanEntries Demo.loaded
    (argsOf (virtualModulePrefix ++ Demo.inlineKey) Demo.entry)
  = (Some {| resolvedPath := Demo.inlineKey; external := false;
             namespace := Some "script" |}, Demo.loaded)
  /\ onLoad Demo.host config Demo.loaded 0 Demo.inlineKey (Some "script")
     = Some (Some Demo.inlineScript, Demo.loaded)
  /\ crawlEdge Demo.host config scanEntries Demo.loaded
       (edge (virtualModulePrefix ++ Demo.inlineKey) Demo.entry)
     = Some Demo.loaded.
Proof.
  apply (virtual_module_round_trip Demo.host config scanEntries Demo.loaded 0
           Demo.inlineKey Demo.entry None Demo.inlineScript);
    vm_compute; reflexivity.
Defined.

Lemma registered_scripts_witness :
  (exists p n, Demo.inlineKey = p ++ "?id=" ++ numberToString n
               /\ test false htmlTypesRE p = true)
  /\ exists l, htmlTypeLoader Demo.inlineScript = Some l
               /\ In l ["js"; "ts"; "tsx"; "jsx"]
               /\ (loader Demo.inlineScript = l \/ loader Demo.inlineScript = "js").
Proof.
  apply (registered_scripts Demo.host config scanEntries Demo.crawl Demo.loaded 0
           Demo.inlineKey Demo.inlineScript);
    vm_compute; reflexivity.
Defined.



Lemma deps_values_checked_witness :
  reactPath <> ""
  /\ path_isAbsolute host reactPath = true
  /\ reactPath <> "react"
  /\ includes reactPath (String (ascii_of_nat 0) EmptyString) = false
  /\ (includes reactPath "node_modules" = true
      \/ exists l, include (optimizeDeps config) = Some l /\ In "react" l)
  /\ isOptimizable host reactPath (optimizeDeps config) = true.
Proof.
  apply (deps_values_checked host config sortedCrawl sortedResult sortedEvents
           "react" reactPath).
  - vm_compute. reflexivity.
  - simpl. auto.
Defined.

Lemma recorded_specifiers_were_imported_witness :
  (forall k, In k (keys (ScanResult.deps sortedResult)) ->
     exists e, In e sortedCrawl /\ path (edgeArgs e) = k)
  /\ (forall k v, In (k, v) (ScanResult.missing sortedResult) ->
        exists e, In e sortedCrawl /\ path (edgeArgs e) = k
                  /\ v = normalizePath host (importer (edgeArgs e))).
Proof.
  apply (recorded_specifiers_were_imported host config sortedCrawl sortedResult
           sortedEvents).
  vm_compute. reflexivity.
Defined.

Lemma crawls_are_scannable_entries_witness :
  isScannable host Demo.entry = true /\ existsSync host Demo.entry = true
  /\ exists found, discoverEntries host config = inr found /\ In Demo.entry found.
Proof.
  apply (crawls_are_scannable_entries host config sortedCrawl (Returns sortedResult)
           sortedEvents Demo.entry).
  - vm_compute. reflexivity.
  - simpl. auto.
Defined.

Lemma orderedDependencies_lookup_witness :
  getOwn (orderedDependencies host Demo.unordered) "react"
  = getOwn Demo.unordered "react"
  /\ List.length (orderedDependencies host Demo.unordered)
     = List.length Demo.unordered.
Proof.
  apply (orderedDependencies_lookup host Demo.unordered "react").
  repeat constructor; simpl; intuition discriminate.
Defined.

Lemma orderedDependencies_idempotent_witness :
  orderedDependencies host (orderedDependencies host Demo.unordered)
  = orderedDependencies host Demo.unordered.
Proof.
  apply (orderedDependencies_idempotent host Demo.unordered).
  - exact codeUnitCompare_consistent.
  - repeat constructor; simpl; intuition discriminate.
  - intros a b [<-|[<-|[]]] [<-|[<-|[]]] H1 H2; try reflexivity; exfalso;
      first [now apply H1 | now apply H2].
Defined.


Lemma type_only_imports_skipped_witness :
  Imports.extractImportPaths (fun c => c) (fun c => c)
    "import type { A } from 'a'" = Some "".
Proof.
  apply (type_only_imports_skipped (fun c => c) (fun c => c)
           "import type { A } from 'a'").
  vm_compute. reflexivity.
Defined.
